(** * MatrixKeypad: the scan / event-buffer state machine

    A shallow embedding of [src/MatrixKeypad.c] (version 1.1.0) and the
    properties of its scanning state machine.

    Conventions of the embedding.
    - [MatrixKeypad_t *] is [option MatrixKeypad_t]; [None] is the NULL
      pointer.  A function that writes through the pointer returns the
      updated object.
    - [char] is [ascii]; ['\0'] is [NUL].
    - [uint8_t] row and column counts and loop counters are [nat].  A counter
      [i] with [i < rown <= 255] never wraps on [i++], so the [for] loops are
      folds over [seq 0 rown] and [seq 0 coln].
    - The pin tables and the key map are caller-owned arrays that the object
      only points to; they are lists here, read with [nth].  C leaves a read
      past the end undefined; [nth] returns pin 0 and [NUL] there, and the
      invariant on the state slots is stated for key maps that cover the
      grid ([rown * coln] entries or more).
    - The index [row * coln + col] is computed in [int] from [uint8_t]
      operands; it is below 65536 and is taken as the natural number, which
      is exact for a 32-bit [int], and for a 16-bit [int] on grids of up to
      32767 cells.
    - The Arduino core and the allocator are a type class over an abstract
      world; every call threads the world. *)

From Stdlib Require Import ZArith List Ascii Bool Arith Lia.
Import ListNotations.

(** ** The platform interface (Arduino.h, stdlib.h) *)

Inductive level : Type := LOW | HIGH.

Inductive pin_mode : Type := INPUT | OUTPUT | INPUT_PULLUP.

(** A [uint8_t] pin number. *)
Definition pin : Type := Z.

(** [malloc] answers whether storage was obtained.  [digitalRead] and
    [millis] return a value and the next world, so inputs and the clock may
    change between any two calls.  [millis] is Arduino's
    [unsigned long millis(void)]. *)
Class Platform (World : Type) : Type := {
  malloc : World -> bool * World;
  pinMode : pin -> pin_mode -> World -> World;
  digitalWrite : pin -> level -> World -> World;
  digitalRead : pin -> World -> level * World;
  millis : World -> Z * World
}.

(** ** Fixed-width arithmetic *)

(** Conversion of a clock reading to [uint16_t]. *)
Definition to_uint16 (z : Z) : Z := (z mod 65536)%Z.

(** Width of [unsigned long] on the Arduino cores. *)
Definition ulong_bits : Z := 32%Z.

(** [a - b] in [unsigned long]: the type of [millis() - startTime], whose
    [uint16_t] operand is converted to [unsigned long] first. *)
Definition ulong_sub (a b : Z) : Z := ((a - b) mod 2 ^ ulong_bits)%Z.

(** ** The keypad object *)

Definition NUL : ascii := Ascii.zero.

Record MatrixKeypad_t : Type := {
  rown : nat;
  coln : nat;
  rowPins : list pin;
  colPins : list pin;
  keyMap : list ascii;
  lastKey : ascii;
  buffer : ascii
}.

Definition set_lastKey (key : ascii) (k : MatrixKeypad_t) : MatrixKeypad_t :=
  {| rown := rown k; coln := coln k; rowPins := rowPins k;
     colPins := colPins k; keyMap := keyMap k;
     lastKey := key; buffer := buffer k |}.

Definition set_buffer (key : ascii) (k : MatrixKeypad_t) : MatrixKeypad_t :=
  {| rown := rown k; coln := coln k; rowPins := rowPins k;
     colPins := colPins k; keyMap := keyMap k;
     lastKey := lastKey k; buffer := key |}.

(** [keyMap[row * coln + col]]. *)
Definition key_at (k : MatrixKeypad_t) (row col : nat) : ascii :=
  nth (row * coln k + col) (keyMap k) NUL.

Section Keypad.

Context {World : Type} {P : Platform World}.

(** ** MatrixKeypad_create *)

Definition init_row (pins : list pin) (w : World) (i : nat) : World :=
  digitalWrite (nth i pins 0%Z) HIGH (pinMode (nth i pins 0%Z) OUTPUT w).

Definition init_col (pins : list pin) (w : World) (i : nat) : World :=
  pinMode (nth i pins 0%Z) INPUT_PULLUP w.

Definition MatrixKeypad_create (keymap : list ascii) (rowPins colPins : list pin)
    (rown coln : nat) (w : World) : option MatrixKeypad_t * World :=
  let (got, w0) := malloc w in
  if got then
    let keypad :=
      {| rown := rown; coln := coln; rowPins := rowPins; colPins := colPins;
         keyMap := keymap; lastKey := NUL; buffer := NUL |} in
    let w1 := fold_left (init_row rowPins) (seq 0 rown) w0 in
    let w2 := fold_left (init_col colPins) (seq 0 coln) w1 in
    (Some keypad, w2)
  else (None, w0).

(** ** MatrixKeypad_scan *)

(** Body of the column loop: one [digitalRead], and [key] overwritten when
    the column reads low. *)
Definition scan_col (k : MatrixKeypad_t) (row : nat) (st : ascii * World)
    (col : nat) : ascii * World :=
  let (key, w) := st in
  let (v, w') := digitalRead (nth col (colPins k) 0%Z) w in
  match v with
  | LOW => (key_at k row col, w')
  | HIGH => (key, w')
  end.

(** Body of the row loop: the row is driven low, every column is read, the
    row is driven high again. *)
Definition scan_row (k : MatrixKeypad_t) (st : ascii * World) (row : nat)
    : ascii * World :=
  let (key, w) := st in
  let w1 := digitalWrite (nth row (rowPins k) 0%Z) LOW w in
  let (key', w2) := fold_left (scan_col k row) (seq 0 (coln k)) (key, w1) in
  (key', digitalWrite (nth row (rowPins k) 0%Z) HIGH w2).

(** The sweep of the whole matrix, from [key = '\0']: the candidate key. *)
Definition scan_matrix (k : MatrixKeypad_t) (w : World) : ascii * World :=
  fold_left (scan_row k) (seq 0 (rown k)) (NUL, w).

(** The edge detection that follows the sweep. *)
Definition latch (k : MatrixKeypad_t) (key : ascii) : MatrixKeypad_t :=
  if negb (Ascii.eqb (lastKey k) key) then
    let k1 := set_lastKey key k in
    if negb (Ascii.eqb key NUL) then set_buffer key k1 else k1
  else k.

Definition MatrixKeypad_scan (keypad : option MatrixKeypad_t) (w : World)
    : option MatrixKeypad_t * World :=
  match keypad with
  | Some k => let (key, w') := scan_matrix k w in (Some (latch k key), w')
  | None => (None, w)
  end.

(** ** MatrixKeypad_hasKey, MatrixKeypad_getKey, MatrixKeypad_flush *)

(** The [uint8_t] result 1 or 0 is [true] or [false]. *)
Definition MatrixKeypad_hasKey (keypad : option MatrixKeypad_t) : bool :=
  match keypad with
  | None => false
  | Some k => if negb (Ascii.eqb (buffer k) NUL) then true else false
  end.

Definition MatrixKeypad_getKey (keypad : option MatrixKeypad_t)
    : ascii * option MatrixKeypad_t :=
  match keypad with
  | None => (NUL, None)
  | Some k => (buffer k, Some (set_buffer NUL k))
  end.

Definition MatrixKeypad_flush (keypad : option MatrixKeypad_t)
    : option MatrixKeypad_t :=
  match keypad with
  | Some k => Some (set_buffer NUL k)
  | None => None
  end.

(** ** The blocking waits

    The [while] loops need not terminate; [fuel] bounds the number of
    iterations of the loop body and [None] means that it ran out. *)

Fixpoint waitForKey_loop (fuel : nat) (keypad : option MatrixKeypad_t)
    (w : World) : option (option MatrixKeypad_t * World) :=
  if negb (MatrixKeypad_hasKey keypad) then
    match fuel with
    | O => None
    | S fuel' =>
        let (keypad', w') := MatrixKeypad_scan keypad w in
        waitForKey_loop fuel' keypad' w'
    end
  else Some (keypad, w).

Definition MatrixKeypad_waitForKey (fuel : nat) (keypad : option MatrixKeypad_t)
    (w : World) : option (ascii * option MatrixKeypad_t * World) :=
  match keypad with
  | None => Some (NUL, None, w)
  | Some _ =>
      match waitForKey_loop fuel keypad w with
      | Some (keypad', w') =>
          let (key, keypad'') := MatrixKeypad_getKey keypad' in
          Some (key, keypad'', w')
      | None => None
      end
  end.

(** [&&] evaluates [millis()] only when the buffer is empty. *)
Fixpoint waitForKeyTimeout_loop (fuel : nat) (startTime timeout : Z)
    (keypad : option MatrixKeypad_t) (w : World)
    : option (option MatrixKeypad_t * World) :=
  if negb (MatrixKeypad_hasKey keypad) then
    let (now, w1) := millis w in
    if (ulong_sub now startTime <=? timeout)%Z then
      match fuel with
      | O => None
      | S fuel' =>
          let (keypad', w2) := MatrixKeypad_scan keypad w1 in
          waitForKeyTimeout_loop fuel' startTime timeout keypad' w2
      end
    else Some (keypad, w1)
  else Some (keypad, w).

Definition MatrixKeypad_waitForKeyTimeout (fuel : nat)
    (keypad : option MatrixKeypad_t) (timeout : Z) (w : World)
    : option (ascii * option MatrixKeypad_t * World) :=
  let (now, w0) := millis w in
  let startTime := to_uint16 now in
  match keypad with
  | None => Some (NUL, None, w0)
  | Some _ =>
      match waitForKeyTimeout_loop fuel startTime timeout keypad w0 with
      | Some (keypad', w') =>
          let (key, keypad'') := MatrixKeypad_getKey keypad' in
          Some (key, keypad'', w')
      | None => None
      end
  end.

End Keypad.

(** ** What a scan pass reads *)

(** The last index below [n] at which [f] is [LOW]. *)
Fixpoint last_low (f : nat -> level) (n : nat) : option nat :=
  match n with
  | O => None
  | S m =>
      match f m with
      | LOW => Some m
      | HIGH => last_low f m
      end
  end.

Section Readings.

Context {World : Type} {P : Platform World}.

(** The world when the sweep started in [w] reaches row [row]. *)
Definition world_at_row (k : MatrixKeypad_t) (w : World) (row : nat) : World :=
  snd (fold_left (scan_row k) (seq 0 row) (NUL, w)).

(** The world in which the sweep reads column [col] of row [row]: row [row]
    has been driven low and columns [0 .. col-1] have been read. *)
Definition world_at_cell (k : MatrixKeypad_t) (w : World) (row col : nat)
    : World :=
  snd (fold_left (scan_col k row) (seq 0 col)
         (NUL, digitalWrite (nth row (rowPins k) 0%Z) LOW (world_at_row k w row))).

(** The level that the sweep started in [w] reads at cell [(row, col)];
    [LOW] is the electrically active level. *)
Definition cell_reads (k : MatrixKeypad_t) (w : World) (row col : nat) : level :=
  fst (digitalRead (nth col (colPins k) 0%Z) (world_at_cell k w row col)).

(** [LOW] when some column of row [row] reads low in the sweep. *)
Definition row_reads (k : MatrixKeypad_t) (w : World) (row : nat) : level :=
  match last_low (cell_reads k w row) (coln k) with
  | Some _ => LOW
  | None => HIGH
  end.

(** The last cell, in sweep order, that reads low. *)
Definition last_cell (k : MatrixKeypad_t) (w : World) : option (nat * nat) :=
  match last_low (row_reads k w) (rown k) with
  | Some row =>
      match last_low (cell_reads k w row) (coln k) with
      | Some col => Some (row, col)
      | None => None
      end
  | None => None
  end.

(** The state after [n] consecutive scans with nothing in between. *)
Fixpoint scan_times (n : nat) (keypad : option MatrixKeypad_t) (w : World)
    : option MatrixKeypad_t * World :=
  match n with
  | O => (keypad, w)
  | S n' =>
      let (keypad', w') := MatrixKeypad_scan keypad w in
      scan_times n' keypad' w'
  end.

(** The loop of blockingWaitForKey as the specification words it: scan
    first, then check for a pending event, until there is one. *)
Fixpoint blockingWaitForKey_spec_loop (fuel : nat)
    (keypad : option MatrixKeypad_t) (w : World)
    : option (option MatrixKeypad_t * World) :=
  match fuel with
  | O => None
  | S fuel' =>
      let (keypad', w') := MatrixKeypad_scan keypad w in
      if MatrixKeypad_hasKey keypad' then Some (keypad', w')
      else blockingWaitForKey_spec_loop fuel' keypad' w'
  end.

Definition blockingWaitForKey_spec (fuel : nat)
    (keypad : option MatrixKeypad_t) (w : World)
    : option (ascii * option MatrixKeypad_t * World) :=
  match keypad with
  | None => Some (NUL, None, w)
  | Some _ =>
      match blockingWaitForKey_spec_loop fuel keypad w with
      | Some (keypad', w') =>
          let (key, keypad'') := MatrixKeypad_getKey keypad' in
          Some (key, keypad'', w')
      | None => None
      end
  end.

End Readings.

(** ** The state invariant *)

(** A slot holds the sentinel or an entry of the key map. *)
Definition slot_ok (k : MatrixKeypad_t) (c : ascii) : Prop :=
  c = NUL \/ In c (keyMap k).

(** The key map covers the grid, and both state slots hold the sentinel or
    one of its entries. *)
Definition keypad_ok (k : MatrixKeypad_t) : Prop :=
  rown k * coln k <= length (keyMap k) /\
  slot_ok k (lastKey k) /\ slot_ok k (buffer k).

Definition handle_ok (keypad : option MatrixKeypad_t) : Prop :=
  match keypad with
  | None => True
  | Some k => keypad_ok k
  end.

(** The geometry and the tables of two objects agree. *)
Definition same_tables (k k' : MatrixKeypad_t) : Prop :=
  rown k' = rown k /\ coln k' = coln k /\ rowPins k' = rowPins k /\
  colPins k' = colPins k /\ keyMap k' = keyMap k.

(** ** A simulated keypad

    A concrete platform on which the functions run: a millisecond clock, the
    set of output pins currently driven low, and the closed switches, each a
    (row pin, column pin) pair.  A column pin reads low exactly when a closed
    switch joins it to a row pin that is driven low (pull-up otherwise).
    Every GPIO call takes one millisecond and is logged, newest first. *)

Inductive gpio_event : Type :=
| EvMode (p : pin) (m : pin_mode)
| EvWrite (p : pin) (v : level)
| EvRead (p : pin) (v : level).

Record Sim : Type := {
  sim_clock : Z;
  sim_heap : bool;
  sim_low : list pin;
  sim_closed : list (pin * pin);
  sim_log : list gpio_event
}.

Definition sim_tick (e : gpio_event) (low : list pin) (s : Sim) : Sim :=
  {| sim_clock := (sim_clock s + 1)%Z; sim_heap := sim_heap s;
     sim_low := low; sim_closed := sim_closed s;
     sim_log := e :: sim_log s |}.

Definition pin_mem (p : pin) (l : list pin) : bool :=
  existsb (Z.eqb p) l.

Definition sim_level (p : pin) (s : Sim) : level :=
  if existsb (fun sw => Z.eqb (snd sw) p && pin_mem (fst sw) (sim_low s))
       (sim_closed s)
  then LOW else HIGH.

Definition sim_write (p : pin) (v : level) (s : Sim) : Sim :=
  let others := filter (fun q => negb (Z.eqb q p)) (sim_low s) in
  sim_tick (EvWrite p v)
    (match v with LOW => p :: others | HIGH => others end) s.

#[export] Instance Sim_Platform : Platform Sim := {
  malloc := fun s => (sim_heap s, s);
  pinMode := fun p m s => sim_tick (EvMode p m) (sim_low s) s;
  digitalWrite := sim_write;
  digitalRead := fun p s =>
    (sim_level p s, sim_tick (EvRead p (sim_level p s)) (sim_low s) s);
  millis := fun s => ((sim_clock s mod 2 ^ ulong_bits)%Z, s)
}.

(** The 4x3 keypad of the header's example. *)
Definition demo_rowPins : list pin := [10; 9; 8; 7]%Z.
Definition demo_colPins : list pin := [6; 5; 4]%Z.
Definition demo_keymap : list ascii :=
  ["1"; "2"; "3"; "4"; "5"; "6"; "7"; "8"; "9"; "*"; "0"; "#"]%char.

Definition demo_keypad (last buf : ascii) : MatrixKeypad_t :=
  {| rown := 4; coln := 3; rowPins := demo_rowPins; colPins := demo_colPins;
     keyMap := demo_keymap; lastKey := last; buffer := buf |}.

(** The simulated world at [clock] milliseconds with the switches at the
    given (row, column) positions of the demo keypad closed. *)
Definition demo_world (clock : Z) (cells : list (nat * nat)) : Sim :=
  {| sim_clock := clock; sim_heap := true; sim_low := [];
     sim_closed :=
       map (fun rc => (nth (fst rc) demo_rowPins 0%Z,
                       nth (snd rc) demo_colPins 0%Z)) cells;
     sim_log := [] |}.

(** ** The keypad hardware

    The comments of lines 50-56 and 75-84 describe the hardware the code
    expects: a pressed key shorts its row wire to its column wire; the rows
    are outputs held high, the columns inputs with pull-ups; a column reads
    low when a pressed key joins it to a row that is driven low.  The laws
    below say this of a platform, through two observations of the world: the
    output pins that are driven low, and the closed switches, each a
    (row pin, column pin) pair. *)

Definition row_pin (k : MatrixKeypad_t) (row : nat) : pin :=
  nth row (rowPins k) 0%Z.

Definition col_pin (k : MatrixKeypad_t) (col : nat) : pin :=
  nth col (colPins k) 0%Z.

(** The switch of the key at a (row, column) position. *)
Definition cell_switch (k : MatrixKeypad_t) (rc : nat * nat) : pin * pin :=
  (row_pin k (fst rc), col_pin k (snd rc)).

(** The first [n] entries of a pin table are different pins. *)
Definition distinct_pins (pins : list pin) (n : nat) : Prop :=
  forall i j, i < n -> j < n -> nth i pins 0%Z = nth j pins 0%Z -> i = j.

Section HardwareLaws.

Context {World : Type} {P : Platform World}.

Variable driven_low : World -> pin -> bool.
Variable closed : World -> list (pin * pin).

(** [digitalWrite] sets the level of its pin and of no other; [digitalRead]
    changes no output; [pinMode] changes no output of another pin. *)
Definition output_laws : Prop :=
  (forall p v w q,
     driven_low (digitalWrite p v w) q =
     if Z.eqb q p then match v with LOW => true | HIGH => false end
     else driven_low w q) /\
  (forall p w q, driven_low (snd (digitalRead p w)) q = driven_low w q) /\
  (forall p m w q, q <> p -> driven_low (pinMode p m w) q = driven_low w q).

(** No GPIO call moves a switch, and a pin reads low exactly when a closed
    switch joins it to a pin that is driven low. *)
Definition switch_laws : Prop :=
  (forall p v w, closed (digitalWrite p v w) = closed w) /\
  (forall p w, closed (snd (digitalRead p w)) = closed w) /\
  (forall p w,
     fst (digitalRead p w) =
     if existsb (fun sw => Z.eqb (snd sw) p && driven_low w (fst sw)) (closed w)
     then LOW else HIGH).

End HardwareLaws.

(** The two observations on the simulated keypad. *)
Definition sim_driven_low (s : Sim) (p : pin) : bool := pin_mem p (sim_low s).

(** * Properties *)

(** ** The sweep *)

Lemma last_low_some (f : nat -> level) (n c : nat) :
  last_low f n = Some c ->
  c < n /\ f c = LOW /\ forall c', c < c' < n -> f c' = HIGH.
Proof.
  induction n as [|n IH]; cbn [last_low]; [discriminate|].
  destruct (f n) eqn:E.
  - intros [= <-]. repeat split; [lia | exact E | intros; lia].
  - intros H. destruct (IH H) as (Hlt & Hc & Hup).
    repeat split; [lia | exact Hc |].
    intros c' Hc'. destruct (Nat.eq_dec c' n) as [->|Hne]; [exact E|].
    apply Hup. lia.
Qed.

Lemma last_low_none (f : nat -> level) (n : nat) :
  last_low f n = None -> forall c, c < n -> f c = HIGH.
Proof.
  induction n as [|n IH]; cbn [last_low]; [intros; lia|].
  destruct (f n) eqn:E; [discriminate|].
  intros H c Hc. destruct (Nat.eq_dec c n) as [->|Hne]; [exact E|].
  apply IH; [exact H | lia].
Qed.

Lemma last_low_found (f : nat -> level) (n c : nat) :
  c < n -> f c = LOW -> (forall c', c < c' < n -> f c' = HIGH) ->
  last_low f n = Some c.
Proof.
  intros Hlt Hc Hup.
  destruct (last_low f n) as [d|] eqn:E.
  - destruct (last_low_some _ _ _ E) as (Hd & Hfd & Hdup).
    destruct (Nat.lt_trichotomy c d) as [Hcd | [-> | Hdc]]; [| reflexivity |].
    + rewrite Hup in Hfd by lia. discriminate.
    + rewrite Hdup in Hc by lia. discriminate.
  - rewrite (last_low_none _ _ E c Hlt) in Hc. discriminate.
Qed.

Lemma last_low_idle (f : nat -> level) (n : nat) :
  (forall c, c < n -> f c = HIGH) -> last_low f n = None.
Proof.
  intros H. destruct (last_low f n) as [d|] eqn:E; [|reflexivity].
  destruct (last_low_some _ _ _ E) as (Hd & Hfd & _).
  rewrite H in Hfd by exact Hd. discriminate.
Qed.

Lemma last_low_exists (f : nat -> level) (n c0 : nat) :
  c0 < n -> f c0 = LOW -> exists c, last_low f n = Some c.
Proof.
  intros Hlt Hc. destruct (last_low f n) as [c|] eqn:E; [now exists c|].
  rewrite (last_low_none _ _ E c0 Hlt) in Hc. discriminate.
Qed.

Section Sweep.

Context {World : Type} {P : Platform World}.

(** The world that a column loop leaves does not depend on the key it
    started with. *)
Lemma scan_cols_world (k : MatrixKeypad_t) (row : nat) (cols : list nat) :
  forall (k1 k2 : ascii) (w : World),
    snd (fold_left (scan_col k row) cols (k1, w)) =
    snd (fold_left (scan_col k row) cols (k2, w)).
Proof.
  induction cols as [|c cols IH]; intros k1 k2 w; cbn [fold_left]; [reflexivity|].
  unfold scan_col at 2 4.
  destruct (digitalRead (nth c (colPins k) 0%Z) w) as [[|] w']; apply IH.
Qed.

Lemma scan_row_world (k : MatrixKeypad_t) (row : nat) (k1 k2 : ascii) (w : World) :
  snd (scan_row k (k1, w) row) = snd (scan_row k (k2, w) row).
Proof.
  unfold scan_row.
  pose proof (scan_cols_world k row (seq 0 (coln k)) k1 k2
                (digitalWrite (nth row (rowPins k) 0%Z) LOW w)) as H.
  destruct (fold_left _ _ (k1, _)) as [a wa].
  destruct (fold_left _ _ (k2, _)) as [b wb].
  cbn [snd] in *. now subst.
Qed.

Lemma scan_rows_world (k : MatrixKeypad_t) (rows : list nat) :
  forall (k1 k2 : ascii) (w : World),
    snd (fold_left (scan_row k) rows (k1, w)) =
    snd (fold_left (scan_row k) rows (k2, w)).
Proof.
  induction rows as [|r rows IH]; intros k1 k2 w; cbn [fold_left]; [reflexivity|].
  pose proof (scan_row_world k r k1 k2 w) as H.
  destruct (scan_row k (k1, w) r) as [a wa].
  destruct (scan_row k (k2, w) r) as [b wb].
  cbn [snd] in H. subst wb. apply IH.
Qed.

(** The key that the column loop of row [row] leaves, started in world [w0]
    with [key = k0]: the entry of the last column that read low, or [k0]. *)
Lemma scan_cols_key (k : MatrixKeypad_t) (row : nat) (w0 : World) (n : nat) :
  forall k0 : ascii,
    fst (fold_left (scan_col k row) (seq 0 n) (k0, w0)) =
    match
      last_low
        (fun c => fst (digitalRead (nth c (colPins k) 0%Z)
                         (snd (fold_left (scan_col k row) (seq 0 c) (NUL, w0)))))
        n
    with
    | Some c => key_at k row c
    | None => k0
    end.
Proof.
  induction n as [|n IH]; intros k0; [reflexivity|].
  rewrite seq_S, fold_left_app. cbn [fold_left last_low Nat.add].
  specialize (IH k0).
  pose proof (scan_cols_world k row (seq 0 n) k0 NUL w0) as Hw.
  destruct (fold_left (scan_col k row) (seq 0 n) (k0, w0)) as [kn wn].
  cbn [fst snd] in IH, Hw. rewrite <- Hw.
  unfold scan_col at 1.
  destruct (digitalRead (nth n (colPins k) 0%Z) wn) as [[|] w']; cbn [fst];
    [reflexivity | exact IH].
Qed.

Lemma scan_row_key (k : MatrixKeypad_t) (w0 : World) (row : nat) (k0 : ascii) :
  fst (scan_row k (k0, world_at_row k w0 row) row) =
  match last_low (cell_reads k w0 row) (coln k) with
  | Some c => key_at k row c
  | None => k0
  end.
Proof.
  unfold scan_row.
  pose proof (scan_cols_key k row
                (digitalWrite (nth row (rowPins k) 0%Z) LOW (world_at_row k w0 row))
                (coln k) k0) as H.
  destruct (fold_left _ _ (k0, _)) as [a wa]. cbn [fst] in *.
  exact H.
Qed.

(** The key that the row loop leaves after rows [0 .. n-1]. *)
Lemma scan_rows_key (k : MatrixKeypad_t) (w0 : World) (n : nat) :
  forall k0 : ascii,
    fst (fold_left (scan_row k) (seq 0 n) (k0, w0)) =
    match last_low (row_reads k w0) n with
    | Some r =>
        match last_low (cell_reads k w0 r) (coln k) with
        | Some c => key_at k r c
        | None => k0
        end
    | None => k0
    end.
Proof.
  induction n as [|n IH]; intros k0; [reflexivity|].
  rewrite seq_S, fold_left_app. cbn [fold_left last_low Nat.add].
  specialize (IH k0).
  pose proof (scan_rows_world k (seq 0 n) k0 NUL w0) as Hw.
  fold (world_at_row k w0 n) in Hw.
  destruct (fold_left (scan_row k) (seq 0 n) (k0, w0)) as [kn wn].
  cbn [fst snd] in IH, Hw. subst wn.
  rewrite scan_row_key. unfold row_reads at 1.
  destruct (last_low (cell_reads k w0 n) (coln k)) eqn:E;
    [now rewrite E | exact IH].
Qed.

(** The candidate key of a sweep is the entry of the last cell that read
    low, and the sentinel when none did. *)
Lemma scan_matrix_key (k : MatrixKeypad_t) (w : World) :
  fst (scan_matrix k w) =
  match last_cell k w with
  | Some (r, c) => key_at k r c
  | None => NUL
  end.
Proof.
  unfold scan_matrix, last_cell. rewrite scan_rows_key.
  destruct (last_low (row_reads k w) (rown k)) as [r|] eqn:Er; [|reflexivity].
  destruct (last_low_some _ _ _ Er) as (_ & Hr & _).
  unfold row_reads in Hr.
  destruct (last_low (cell_reads k w r) (coln k)); [reflexivity | discriminate].
Qed.

Lemma last_cell_found (k : MatrixKeypad_t) (w : World) (r c : nat) :
  r < rown k -> c < coln k ->
  cell_reads k w r c = LOW ->
  (forall r' c', r < r' < rown k -> c' < coln k -> cell_reads k w r' c' = HIGH) ->
  (forall c', c < c' < coln k -> cell_reads k w r c' = HIGH) ->
  last_cell k w = Some (r, c).
Proof.
  intros Hr Hc Hlow Hrows Hcols. unfold last_cell.
  assert (Ec : last_low (cell_reads k w r) (coln k) = Some c)
    by (apply last_low_found; assumption).
  rewrite (last_low_found (row_reads k w) (rown k) r); [now rewrite Ec | exact Hr | |].
  - unfold row_reads. now rewrite Ec.
  - intros r' Hr'. unfold row_reads.
    rewrite last_low_idle; [reflexivity|].
    intros c' Hc'. now apply Hrows.
Qed.

Lemma last_cell_idle (k : MatrixKeypad_t) (w : World) :
  (forall r c, r < rown k -> c < coln k -> cell_reads k w r c = HIGH) ->
  last_cell k w = None.
Proof.
  intros H. unfold last_cell.
  rewrite last_low_idle; [reflexivity|].
  intros r Hr. unfold row_reads.
  rewrite last_low_idle; [reflexivity|].
  intros c Hc. now apply H.
Qed.

Lemma last_cell_some (k : MatrixKeypad_t) (w : World) (r c : nat) :
  last_cell k w = Some (r, c) ->
  r < rown k /\ c < coln k /\ cell_reads k w r c = LOW.
Proof.
  unfold last_cell.
  destruct (last_low (row_reads k w) (rown k)) as [r0|] eqn:Er; [|discriminate].
  destruct (last_low (cell_reads k w r0) (coln k)) as [c0|] eqn:Ec; [|discriminate].
  intros [= <- <-].
  destruct (last_low_some _ _ _ Er) as (Hr & _).
  destruct (last_low_some _ _ _ Ec) as (Hc & Hlow & _).
  auto.
Qed.

(** The sweep reads the tables only: the state slots do not matter. *)
Lemma scan_matrix_tables (k k' : MatrixKeypad_t) (w : World) :
  same_tables k k' -> scan_matrix k' w = scan_matrix k w.
Proof.
  destruct k, k'. unfold same_tables. cbn.
  intros (-> & -> & -> & -> & ->). reflexivity.
Qed.

End Sweep.

(** ** The edge detection *)

Lemma latch_tables (k : MatrixKeypad_t) (key : ascii) :
  same_tables k (latch k key).
Proof.
  unfold latch, same_tables.
  destruct (Ascii.eqb (lastKey k) key), (Ascii.eqb key NUL); cbn; auto.
Qed.

Lemma latch_lastKey (k : MatrixKeypad_t) (key : ascii) :
  lastKey (latch k key) = key.
Proof.
  unfold latch.
  destruct (Ascii.eqb_spec (lastKey k) key) as [E|E]; cbn [negb]; [exact E|].
  destruct (Ascii.eqb key NUL); reflexivity.
Qed.

Lemma latch_held (k : MatrixKeypad_t) (key : ascii) :
  key = lastKey k -> latch k key = k.
Proof.
  intros ->. unfold latch. now rewrite Ascii.eqb_refl.
Qed.

Lemma latch_press (k : MatrixKeypad_t) (key : ascii) :
  key <> lastKey k -> key <> NUL ->
  latch k key = set_buffer key (set_lastKey key k).
Proof.
  intros H1 H2. unfold latch.
  destruct (Ascii.eqb_spec (lastKey k) key) as [E|E]; [congruence|].
  destruct (Ascii.eqb_spec key NUL) as [F|F]; [congruence|]. reflexivity.
Qed.

Lemma latch_release (k : MatrixKeypad_t) :
  lastKey k <> NUL -> latch k NUL = set_lastKey NUL k.
Proof.
  intros H. unfold latch.
  destruct (Ascii.eqb_spec (lastKey k) NUL) as [E|E]; [congruence|].
  reflexivity.
Qed.

Lemma latch_buffer (k : MatrixKeypad_t) (key : ascii) :
  buffer (latch k key) = buffer k \/ (buffer (latch k key) = key /\ key <> NUL).
Proof.
  unfold latch.
  destruct (Ascii.eqb (lastKey k) key); cbn [negb]; [now left|].
  destruct (Ascii.eqb_spec key NUL) as [F|F]; cbn [negb]; [now left|].
  right. split; [reflexivity | exact F].
Qed.

Lemma hasKey_buffer (k : MatrixKeypad_t) :
  MatrixKeypad_hasKey (Some k) = negb (Ascii.eqb (buffer k) NUL).
Proof.
  cbn. now destruct (Ascii.eqb (buffer k) NUL).
Qed.

Section Scanner.

Context {World : Type} {P : Platform World}.

Lemma scan_some (k : MatrixKeypad_t) (w : World) :
  MatrixKeypad_scan (Some k) w =
  (Some (latch k (fst (scan_matrix k w))), snd (scan_matrix k w)).
Proof.
  cbn. now destruct (scan_matrix k w).
Qed.

(** C1.  One scan pass with candidate key [key]: when [key] equals
    [lastKey], neither [lastKey] nor [buffer] changes; when it differs,
    [lastKey] becomes [key], and [buffer] becomes [key] when [key] is not the
    sentinel and is left as it was when [key] is the sentinel. *)
Theorem scan_latches_on_edge (k : MatrixKeypad_t) (w : World) :
  let key := fst (scan_matrix k w) in
  exists k' : MatrixKeypad_t,
    MatrixKeypad_scan (Some k) w = (Some k', snd (scan_matrix k w)) /\
    same_tables k k' /\
    (key = lastKey k -> lastKey k' = lastKey k /\ buffer k' = buffer k) /\
    (key <> lastKey k ->
       lastKey k' = key /\
       (key <> NUL -> buffer k' = key) /\
       (key = NUL -> buffer k' = buffer k)).
Proof.
  intros key. exists (latch k key). subst key.
  split; [apply scan_some|]. split; [apply latch_tables|]. split.
  - intros E. now rewrite latch_held.
  - intros E. split; [apply latch_lastKey|]. split.
    + intros F. now rewrite latch_press.
    + intros F. rewrite F in *. rewrite latch_release by congruence. reflexivity.
Qed.

(** C2.  [MatrixKeypad_getKey] returns [buffer] and resets it to the
    sentinel: a second call in a row returns the sentinel, and after a scan
    that latched a press the first call returns the pressed key and the
    second the sentinel. *)
Theorem getKey_reads_once (k : MatrixKeypad_t) :
  MatrixKeypad_getKey (Some k) = (buffer k, Some (set_buffer NUL k)) /\
  fst (MatrixKeypad_getKey (snd (MatrixKeypad_getKey (Some k)))) = NUL /\
  forall w : World,
    let key := fst (scan_matrix k w) in
    let pressed := fst (MatrixKeypad_scan (Some k) w) in
    key <> NUL -> key <> lastKey k ->
    MatrixKeypad_hasKey pressed = true /\
    fst (MatrixKeypad_getKey pressed) = key /\
    fst (MatrixKeypad_getKey (snd (MatrixKeypad_getKey pressed))) = NUL.
Proof.
  split; [reflexivity|]. split; [reflexivity|].
  intros w key pressed Hn He. subst key pressed.
  rewrite scan_some. cbn [fst].
  rewrite latch_press by assumption.
  rewrite hasKey_buffer. cbn.
  destruct (Ascii.eqb_spec (fst (scan_matrix k w)) NUL); [contradiction|].
  auto.
Qed.

(** The candidate key when [(r, c)] is the last cell, in sweep order, that
    reads low. *)
Lemma scan_key_of_last_cell (k : MatrixKeypad_t) (w : World) (r c : nat) :
  r < rown k -> c < coln k ->
  cell_reads k w r c = LOW ->
  (forall r' c', r < r' < rown k -> c' < coln k -> cell_reads k w r' c' = HIGH) ->
  (forall c', c < c' < coln k -> cell_reads k w r c' = HIGH) ->
  fst (scan_matrix k w) = key_at k r c.
Proof.
  intros Hr Hc Hlow Hrows Hcols.
  rewrite scan_matrix_key, (last_cell_found k w r c) by assumption.
  reflexivity.
Qed.

Lemma last_cell_exists (k : MatrixKeypad_t) (w : World) (r0 c0 : nat) :
  r0 < rown k -> c0 < coln k -> cell_reads k w r0 c0 = LOW ->
  exists r c,
    last_cell k w = Some (r, c) /\
    (forall r' c', r < r' < rown k -> c' < coln k -> cell_reads k w r' c' = HIGH) /\
    (forall c', c < c' < coln k -> cell_reads k w r c' = HIGH).
Proof.
  intros Hr0 Hc0 Hlow.
  assert (Hrow0 : row_reads k w r0 = LOW).
  { unfold row_reads.
    destruct (last_low_exists (cell_reads k w r0) (coln k) c0 Hc0 Hlow) as [c ->].
    reflexivity. }
  destruct (last_low_exists (row_reads k w) (rown k) r0 Hr0 Hrow0) as [r Er].
  destruct (last_low_some _ _ _ Er) as (Hr & Hrow & Hlater).
  unfold row_reads in Hrow.
  destruct (last_low (cell_reads k w r) (coln k)) as [c|] eqn:Ec; [|discriminate].
  destruct (last_low_some _ _ _ Ec) as (Hc & _ & Hcols).
  exists r, c. unfold last_cell. rewrite Er, Ec.
  split; [reflexivity|]. split; [|exact Hcols].
  intros r' c' Hr' Hc'. specialize (Hlater r' Hr'). unfold row_reads in Hlater.
  destruct (last_low (cell_reads k w r') (coln k)) eqn:E'; [discriminate|].
  exact (last_low_none _ _ E' c' Hc').
Qed.

(** C3.  In a scan pass in which some cell reads low there is a cell
    [(r, c)] that reads low while no cell of a later row and no later column
    of row [r] does: [r] is the highest row with a column that reads low and
    [c] the highest such column in it.  The candidate key of the pass, which
    the scan records in [lastKey], is the key map entry of that cell. *)
Theorem scan_last_active_wins (k : MatrixKeypad_t) (w : World) :
  (exists r0 c0, r0 < rown k /\ c0 < coln k /\ cell_reads k w r0 c0 = LOW) ->
  exists r c : nat,
    (r < rown k /\ c < coln k /\ cell_reads k w r c = LOW) /\
    (forall r' c', r < r' < rown k -> c' < coln k -> cell_reads k w r' c' = HIGH) /\
    (forall c', c < c' < coln k -> cell_reads k w r c' = HIGH) /\
    fst (scan_matrix k w) = nth (r * coln k + c) (keyMap k) NUL /\
    exists k' : MatrixKeypad_t,
      fst (MatrixKeypad_scan (Some k) w) = Some k' /\
      lastKey k' = nth (r * coln k + c) (keyMap k) NUL.
Proof.
  intros (r0 & c0 & Hr0 & Hc0 & Hlow).
  destruct (last_cell_exists k w r0 c0 Hr0 Hc0 Hlow) as (r & c & E & Hrows & Hcols).
  assert (Hkey : fst (scan_matrix k w) = key_at k r c)
    by (rewrite scan_matrix_key, E; reflexivity).
  exists r, c.
  split; [exact (last_cell_some k w r c E)|].
  split; [exact Hrows|]. split; [exact Hcols|]. split; [exact Hkey|].
  exists (latch k (fst (scan_matrix k w))). rewrite scan_some. cbn [fst].
  split; [reflexivity|]. rewrite latch_lastKey. exact Hkey.
Qed.

(** C5.  With the NULL handle every operation leaves the handle NULL, calls
    no GPIO function, and returns the sentinel or false; the waits return at
    once, whatever the fuel. *)
Theorem null_handle_degrades (fuel : nat) (timeout : Z) (w : World) :
  MatrixKeypad_scan None w = (None, w) /\
  MatrixKeypad_hasKey None = false /\
  MatrixKeypad_getKey None = (NUL, None) /\
  MatrixKeypad_waitForKey fuel None w = Some (NUL, None, w) /\
  MatrixKeypad_waitForKeyTimeout fuel None timeout w =
    Some (NUL, None, snd (millis w)) /\
  MatrixKeypad_flush None = None.
Proof.
  repeat split. unfold MatrixKeypad_waitForKeyTimeout.
  now destruct (millis w).
Qed.

(** C7.  When [buffer] is the sentinel and no cell reads low during a scan
    pass, after that scan [MatrixKeypad_hasKey] is false and
    [MatrixKeypad_getKey] returns the sentinel. *)
Theorem no_phantom_press (k : MatrixKeypad_t) (w : World) :
  buffer k = NUL ->
  (forall r c, r < rown k -> c < coln k -> cell_reads k w r c = HIGH) ->
  let after := fst (MatrixKeypad_scan (Some k) w) in
  MatrixKeypad_hasKey after = false /\
  fst (MatrixKeypad_getKey after) = NUL.
Proof.
  intros Hb Hidle after. subst after.
  rewrite scan_some. cbn [fst].
  assert (E : fst (scan_matrix k w) = NUL)
    by (rewrite scan_matrix_key, last_cell_idle by assumption; reflexivity).
  rewrite E.
  assert (B : buffer (latch k NUL) = NUL).
  { destruct (latch_buffer k NUL) as [H|[_ H]]; [congruence | contradiction]. }
  rewrite hasKey_buffer. cbn [MatrixKeypad_getKey fst]. rewrite B.
  split; reflexivity.
Qed.

(** C8.  [MatrixKeypad_create] returns NULL when [malloc] fails, and
    otherwise an object whose geometry and tables are the arguments and whose
    [lastKey] and [buffer] are the sentinel; it returns in both cases. *)
Theorem create_result (keymap : list ascii) (rowPins colPins : list pin)
    (rown coln : nat) (w : World) :
  let r := MatrixKeypad_create keymap rowPins colPins rown coln w in
  (fst (malloc w) = false -> r = (None, snd (malloc w))) /\
  (fst (malloc w) = true ->
     fst r = Some {| rown := rown; coln := coln; rowPins := rowPins;
                     colPins := colPins; keyMap := keymap;
                     lastKey := NUL; buffer := NUL |} /\
     snd r = fold_left (init_col colPins) (seq 0 coln)
               (fold_left (init_row rowPins) (seq 0 rown) (snd (malloc w)))).
Proof.
  intros r. subst r. unfold MatrixKeypad_create.
  destruct (malloc w) as [[|] w0]; cbn [fst snd]; split; intros H;
    try discriminate; auto.
Qed.

(** C6.  [MatrixKeypad_flush] resets [buffer] to the sentinel and leaves
    [lastKey] as it was, so [MatrixKeypad_hasKey] is false afterwards.  With
    a key held ([lastKey] not the sentinel), a scan that finds the same key
    does not buffer it again, while a scan that reads every cell idle
    followed by a scan that finds the key again does. *)
Theorem flush_keeps_history (k : MatrixKeypad_t) :
  let k0 := set_buffer NUL k in
  MatrixKeypad_flush (Some k) = Some k0 /\
  buffer k0 = NUL /\ lastKey k0 = lastKey k /\
  MatrixKeypad_hasKey (Some k0) = false /\
  forall w1 w2 w3 : World,
    lastKey k <> NUL ->
    fst (scan_matrix k w1) = lastKey k ->
    (forall r c, r < rown k -> c < coln k -> cell_reads k w2 r c = HIGH) ->
    fst (scan_matrix k w3) = lastKey k ->
    MatrixKeypad_hasKey (fst (MatrixKeypad_scan (Some k0) w1)) = false /\
    exists k3 : MatrixKeypad_t,
      fst (MatrixKeypad_scan (fst (MatrixKeypad_scan (Some k0) w2)) w3) = Some k3 /\
      buffer k3 = lastKey k /\
      MatrixKeypad_hasKey (Some k3) = true.
Proof.
  intros k0.
  assert (T0 : same_tables k k0) by (unfold same_tables; cbn; auto).
  repeat (split; [reflexivity|]).
  intros w1 w2 w3 Hheld Hsame Hidle Hagain.
  split.
  - rewrite scan_some. cbn [fst].
    rewrite (scan_matrix_tables k k0 w1 T0), Hsame.
    rewrite latch_held by reflexivity. reflexivity.
  - rewrite scan_some. cbn [fst].
    rewrite (scan_matrix_tables k k0 w2 T0).
    rewrite scan_matrix_key, (last_cell_idle k w2 Hidle).
    rewrite latch_release by exact Hheld.
    rewrite scan_some. cbn [fst].
    set (k2 := set_lastKey NUL k0).
    assert (T2 : same_tables k k2) by (unfold same_tables; cbn; auto).
    rewrite (scan_matrix_tables k k2 w3 T2), Hagain.
    exists (latch k2 (lastKey k)). split; [reflexivity|].
    rewrite latch_press by (cbn; congruence).
    rewrite hasKey_buffer. cbn.
    destruct (Ascii.eqb_spec (lastKey k) NUL); [contradiction|]. auto.
Qed.

(** ** The blocking waits *)

Lemma waitForKey_loop_pending (fuel : nat) (keypad : option MatrixKeypad_t)
    (w : World) :
  MatrixKeypad_hasKey keypad = true ->
  waitForKey_loop fuel keypad w = Some (keypad, w).
Proof.
  intros H. destruct fuel; cbn [waitForKey_loop]; now rewrite H.
Qed.

Lemma waitForKey_loop_step (fuel : nat) (keypad : option MatrixKeypad_t)
    (w : World) :
  MatrixKeypad_hasKey keypad = false ->
  waitForKey_loop (S fuel) keypad w =
  waitForKey_loop fuel (fst (MatrixKeypad_scan keypad w))
    (snd (MatrixKeypad_scan keypad w)).
Proof.
  intros H. cbn [waitForKey_loop]. rewrite H. cbn [negb].
  now destruct (MatrixKeypad_scan keypad w).
Qed.

(** With no event pending on entry, the loop of the code and the
    scan-then-check loop coincide. *)
Lemma waitForKey_loop_spec (fuel : nat) :
  forall (keypad : option MatrixKeypad_t) (w : World),
    MatrixKeypad_hasKey keypad = false ->
    waitForKey_loop fuel keypad w = blockingWaitForKey_spec_loop fuel keypad w.
Proof.
  induction fuel as [|fuel IH]; intros keypad w H.
  - cbn. now rewrite H.
  - rewrite waitForKey_loop_step by exact H.
    cbn [blockingWaitForKey_spec_loop].
    destruct (MatrixKeypad_scan keypad w) as [keypad' w']. cbn [fst snd].
    destruct (MatrixKeypad_hasKey keypad') eqn:E.
    + now apply waitForKey_loop_pending.
    + now apply IH.
Qed.

(** When the first pending event shows after [n] scans, fuel [n] or more
    lets the loop stop there. *)
Lemma waitForKey_loop_stops (n : nat) :
  forall (fuel : nat) (keypad : option MatrixKeypad_t) (w : World),
    (forall i, i < n ->
       MatrixKeypad_hasKey (fst (scan_times i keypad w)) = false) ->
    MatrixKeypad_hasKey (fst (scan_times n keypad w)) = true ->
    n <= fuel ->
    waitForKey_loop fuel keypad w = Some (scan_times n keypad w).
Proof.
  induction n as [|n IH]; intros fuel keypad w Hbefore Hat Hfuel.
  - cbn in Hat |- *. now apply waitForKey_loop_pending.
  - destruct fuel as [|fuel]; [lia|].
    rewrite waitForKey_loop_step by (apply (Hbefore 0); lia).
    cbn [scan_times] in Hat |- *.
    destruct (MatrixKeypad_scan keypad w) as [keypad' w'] eqn:E.
    cbn [fst snd]. apply IH; [| exact Hat | lia].
    intros i Hi. specialize (Hbefore (S i) ltac:(lia)).
    cbn [scan_times] in Hbefore. now rewrite E in Hbefore.
Qed.

(** C9, as the code has it.  [MatrixKeypad_waitForKey] checks for a pending
    event first and scans only while there is none: with an event pending on
    entry it returns that event and calls no scan; with none pending on entry
    it is the scan-then-check loop; and when the first pending event shows
    after [n] scans it returns, given fuel for [n] iterations, what
    [MatrixKeypad_getKey] returns in the state after these [n] scans. *)
Theorem waitForKey_checks_first (fuel : nat) (k : MatrixKeypad_t) (w : World) :
  (MatrixKeypad_hasKey (Some k) = true ->
     MatrixKeypad_waitForKey fuel (Some k) w =
     Some (buffer k, Some (set_buffer NUL k), w)) /\
  (MatrixKeypad_hasKey (Some k) = false ->
     MatrixKeypad_waitForKey fuel (Some k) w =
     blockingWaitForKey_spec fuel (Some k) w) /\
  (forall n : nat,
     (forall i, i < n ->
        MatrixKeypad_hasKey (fst (scan_times i (Some k) w)) = false) ->
     MatrixKeypad_hasKey (fst (scan_times n (Some k) w)) = true ->
     n <= fuel ->
     MatrixKeypad_waitForKey fuel (Some k) w =
     Some (MatrixKeypad_getKey (fst (scan_times n (Some k) w)),
           snd (scan_times n (Some k) w))).
Proof.
  split; [|split].
  - intros H. unfold MatrixKeypad_waitForKey.
    now rewrite waitForKey_loop_pending.
  - intros H. unfold MatrixKeypad_waitForKey, blockingWaitForKey_spec.
    now rewrite waitForKey_loop_spec.
  - intros n Hbefore Hat Hfuel. unfold MatrixKeypad_waitForKey.
    rewrite (waitForKey_loop_stops n) by assumption.
    destruct (scan_times n (Some k) w) as [keypad' w']. cbn [fst snd].
    now destruct (MatrixKeypad_getKey keypad').
Qed.

(** ** The invariant *)

Lemma candidate_in_keymap (k : MatrixKeypad_t) (w : World) :
  rown k * coln k <= length (keyMap k) ->
  slot_ok k (fst (scan_matrix k w)).
Proof.
  intros Hlen. rewrite scan_matrix_key.
  destruct (last_cell k w) as [[r c]|] eqn:E; [|now left].
  destruct (last_cell_some k w r c E) as (Hr & Hc & _).
  right. apply nth_In. nia.
Qed.

Lemma latch_ok (k : MatrixKeypad_t) (key : ascii) :
  keypad_ok k -> slot_ok k key -> keypad_ok (latch k key).
Proof.
  intros (Hlen & Hlast & Hbuf) Hkey.
  destruct (latch_tables k key) as (Er & Ec & _ & _ & Em).
  unfold keypad_ok, slot_ok in *.
  rewrite Er, Ec, Em, latch_lastKey.
  split; [exact Hlen|]. split; [exact Hkey|].
  destruct (latch_buffer k key) as [-> | [-> _]]; assumption.
Qed.

Lemma scan_ok (keypad : option MatrixKeypad_t) (w : World) :
  handle_ok keypad -> handle_ok (fst (MatrixKeypad_scan keypad w)).
Proof.
  destruct keypad as [k|]; [|trivial]. intros H.
  rewrite scan_some. cbn [fst handle_ok].
  apply latch_ok; [exact H|]. apply candidate_in_keymap, H.
Qed.

Lemma set_buffer_NUL_ok (k : MatrixKeypad_t) :
  keypad_ok k -> keypad_ok (set_buffer NUL k).
Proof.
  intros (Hlen & Hlast & _). unfold keypad_ok, slot_ok. cbn. auto.
Qed.

Lemma getKey_ok (keypad : option MatrixKeypad_t) :
  handle_ok keypad -> handle_ok (snd (MatrixKeypad_getKey keypad)).
Proof.
  destruct keypad as [k|]; [|trivial]. apply set_buffer_NUL_ok.
Qed.

Lemma scan_times_ok (n : nat) :
  forall (keypad : option MatrixKeypad_t) (w : World),
    handle_ok keypad -> handle_ok (fst (scan_times n keypad w)).
Proof.
  induction n as [|n IH]; intros keypad w H; [exact H|].
  cbn [scan_times]. pose proof (scan_ok keypad w H) as H1.
  destruct (MatrixKeypad_scan keypad w) as [keypad' w']. now apply IH.
Qed.

Lemma waitForKey_loop_ok (fuel : nat) :
  forall (keypad keypad' : option MatrixKeypad_t) (w w' : World),
    handle_ok keypad ->
    waitForKey_loop fuel keypad w = Some (keypad', w') ->
    handle_ok keypad'.
Proof.
  induction fuel as [|fuel IH]; intros keypad keypad' w w' H;
    cbn [waitForKey_loop]; destruct (MatrixKeypad_hasKey keypad); cbn [negb];
    try discriminate; try (intros [= <- <-]; exact H).
  pose proof (scan_ok keypad w H) as H1.
  destruct (MatrixKeypad_scan keypad w) as [k1 w1]. now apply IH.
Qed.

Lemma waitForKeyTimeout_loop_ok (startTime timeout : Z) (fuel : nat) :
  forall (keypad keypad' : option MatrixKeypad_t) (w w' : World),
    handle_ok keypad ->
    waitForKeyTimeout_loop fuel startTime timeout keypad w = Some (keypad', w') ->
    handle_ok keypad'.
Proof.
  induction fuel as [|fuel IH]; intros keypad keypad' w w' H;
    cbn [waitForKeyTimeout_loop]; destruct (MatrixKeypad_hasKey keypad);
    cbn [negb]; try (intros [= <- <-]; exact H);
    destruct (millis w) as [now w1];
    destruct (ulong_sub now startTime <=? timeout)%Z;
    try discriminate; try (intros [= <- <-]; exact H).
  pose proof (scan_ok keypad w1 H) as H1.
  destruct (MatrixKeypad_scan keypad w1) as [k2 w2]. now apply IH.
Qed.

(** C10.  An object made by [MatrixKeypad_create] over a key map that
    covers the grid has [lastKey] and [buffer] equal to the sentinel or to a
    key map entry, and [MatrixKeypad_scan], [MatrixKeypad_getKey],
    [MatrixKeypad_flush], any number of scans and both blocking waits keep
    it so; [MatrixKeypad_hasKey] writes nothing.  The keys handed out by
    [MatrixKeypad_getKey] are the sentinel or key map entries too. *)
Theorem slots_hold_mapped_keys :
  (forall (keymap : list ascii) (rowPins colPins : list pin) (rown coln : nat)
          (w : World),
     rown * coln <= length keymap ->
     handle_ok (fst (MatrixKeypad_create keymap rowPins colPins rown coln w))) /\
  (forall keypad : option MatrixKeypad_t,
     handle_ok keypad ->
     (forall w, handle_ok (fst (MatrixKeypad_scan keypad w))) /\
     (forall n w, handle_ok (fst (scan_times n keypad w))) /\
     handle_ok (snd (MatrixKeypad_getKey keypad)) /\
     (forall k, keypad = Some k -> slot_ok k (fst (MatrixKeypad_getKey keypad))) /\
     handle_ok (MatrixKeypad_flush keypad) /\
     (forall fuel w r,
        MatrixKeypad_waitForKey fuel keypad w = Some r ->
        handle_ok (snd (fst r))) /\
     (forall fuel timeout w r,
        MatrixKeypad_waitForKeyTimeout fuel keypad timeout w = Some r ->
        handle_ok (snd (fst r)))).
Proof.
  split.
  - intros keymap rowPins colPins rown coln w Hlen.
    unfold MatrixKeypad_create.
    destruct (malloc w) as [[|] w0]; cbn; [|trivial].
    unfold keypad_ok, slot_ok. cbn. auto.
  - intros keypad H.
    split; [intros w; now apply scan_ok|].
    split; [intros n w; now apply scan_times_ok|].
    split; [now apply getKey_ok|].
    split; [intros k ->; cbn; apply H|].
    split; [destruct keypad as [k|]; [now apply set_buffer_NUL_ok | trivial]|].
    split.
    + intros fuel w r. unfold MatrixKeypad_waitForKey.
      destruct keypad as [k|]; [|intros [= <-]; exact I].
      destruct (waitForKey_loop fuel (Some k) w) as [[keypad' w']|] eqn:E;
        [|discriminate].
      pose proof (getKey_ok keypad' (waitForKey_loop_ok _ _ _ _ _ H E)) as H1.
      destruct (MatrixKeypad_getKey keypad') as [key keypad''].
      intros [= <-]. exact H1.
    + intros fuel timeout w r. unfold MatrixKeypad_waitForKeyTimeout.
      destruct (millis w) as [now w0].
      destruct keypad as [k|]; [|intros [= <-]; exact I].
      destruct (waitForKeyTimeout_loop fuel (to_uint16 now) timeout (Some k) w0)
        as [[keypad' w']|] eqn:E; [|discriminate].
      pose proof (getKey_ok keypad'
                    (waitForKeyTimeout_loop_ok _ _ _ _ _ _ _ H E)) as H1.
      destruct (MatrixKeypad_getKey keypad') as [key keypad''].
      intros [= <-]. exact H1.
Qed.

(** ** The timeout test *)

(** While the clock reading taken on entry is below 65536 and the clock has
    not wrapped since, the difference computed in [unsigned long] is the
    time elapsed. *)
Lemma ulong_sub_exact (m0 m : Z) :
  (0 <= m0 < 65536)%Z -> (m0 <= m < 2 ^ ulong_bits)%Z ->
  ulong_sub m (to_uint16 m0) = (m - m0)%Z.
Proof.
  unfold ulong_sub, to_uint16, ulong_bits. intros H0 H1.
  rewrite (Z.mod_small m0) by lia. apply Z.mod_small. lia.
Qed.

(** Once the reading taken on entry is 65536 or more, [startTime] has lost
    its upper bits and the difference is 65536 or more at every later
    reading: above any [uint16_t] timeout. *)
Lemma ulong_sub_truncated_start (m0 m : Z) :
  (65536 <= m0 <= m)%Z -> (m < 2 ^ ulong_bits)%Z ->
  (65536 <= ulong_sub m (to_uint16 m0))%Z.
Proof.
  unfold ulong_sub, to_uint16, ulong_bits. intros H0 H1.
  pose proof (Z.mod_pos_bound m0 65536 ltac:(lia)) as Hb.
  pose proof (Z.div_mod m0 65536 ltac:(lia)) as Hd.
  assert (1 <= m0 / 65536)%Z by (apply Z.div_le_lower_bound; lia).
  rewrite Z.mod_small by lia. lia.
Qed.

Lemma waitForKeyTimeout_expires_at_once (fuel : nat) (k : MatrixKeypad_t)
    (timeout : Z) (w : World) :
  let m0 := fst (millis w) in
  let w0 := snd (millis w) in
  let m := fst (millis w0) in
  buffer k = NUL ->
  (65536 <= m0 <= m)%Z -> (m < 2 ^ ulong_bits)%Z -> (timeout < 65536)%Z ->
  MatrixKeypad_waitForKeyTimeout fuel (Some k) timeout w =
  Some (NUL, Some (set_buffer NUL k), snd (millis w0)).
Proof.
  intros m0 w0 m Hb H0 H1 Ht. subst m0 w0 m.
  unfold MatrixKeypad_waitForKeyTimeout.
  destruct (millis w) as [m0 w0]. cbn [fst snd] in *.
  assert (E : waitForKeyTimeout_loop fuel (to_uint16 m0) timeout (Some k) w0 =
              Some (Some k, snd (millis w0))).
  { pose proof (ulong_sub_truncated_start m0 (fst (millis w0)) H0 H1) as Hs.
    destruct fuel; cbn [waitForKeyTimeout_loop]; rewrite hasKey_buffer, Hb;
      cbn [Ascii.eqb NUL negb]; rewrite Ascii.eqb_refl; cbn [negb];
      destruct (millis w0) as [m w1]; cbn [fst snd] in *;
      destruct (Z.leb_spec (ulong_sub m (to_uint16 m0)) timeout);
      solve [lia | reflexivity]. }
  rewrite E. cbn. now rewrite Hb.
Qed.

End Scanner.

(** ** Runs on the simulated keypad *)

(** On the 4x3 keypad of the header a press at row 1, column 2 gives ["6"]
    after one scan, once. *)
Example demo_press_6 :
  let w := demo_world 0 [(1, 2)] in
  let pressed := fst (MatrixKeypad_scan (Some (demo_keypad NUL NUL)) w) in
  MatrixKeypad_hasKey pressed = true /\
  fst (MatrixKeypad_getKey pressed) = "6"%char /\
  fst (MatrixKeypad_getKey (snd (MatrixKeypad_getKey pressed))) = NUL.
Proof. vm_compute. auto. Qed.

(** In the first 65 seconds after start-up a wait of 1000 ms with no key
    pressed lasts 1000 ms and the scan pass that was under way. *)
Example demo_timeout_early_clock :
  option_map (fun r => (fst (fst r), sim_clock (snd r)))
    (MatrixKeypad_waitForKeyTimeout 100 (Some (demo_keypad NUL NUL)) 1000
       (demo_world 1000 [])) = Some (NUL, 2020%Z).
Proof. vm_compute. reflexivity. Qed.

(** A wait entered 500 ms before the 32-bit counter wraps ends at once as
    well, without a scan. *)
Example demo_timeout_before_wrap :
  option_map (fun r => (fst (fst r), sim_log (snd r)))
    (MatrixKeypad_waitForKeyTimeout 100 (Some (demo_keypad NUL NUL)) 1000
       (demo_world (2 ^ 32 - 500) [])) = Some (NUL, []).
Proof. vm_compute. reflexivity. Qed.

(** C4, where the code departs from it.  With the clock at 70000 ms on
    entry, no key pressed and a timeout of 1000 ms,
    [MatrixKeypad_waitForKeyTimeout] returns the sentinel at once: whatever
    the fuel, the world it leaves is the world it was called in, with no GPIO
    call made and the clock still at 70000. *)
Theorem waitForKeyTimeout_quits_at_once (fuel : nat) :
  MatrixKeypad_waitForKeyTimeout fuel (Some (demo_keypad NUL NUL)) 1000
    (demo_world 70000 []) =
  Some (NUL, Some (demo_keypad NUL NUL), demo_world 70000 []).
Proof.
  rewrite waitForKeyTimeout_expires_at_once;
    [reflexivity | reflexivity | vm_compute; split; discriminate
    | reflexivity | reflexivity].
Qed.

(** ** Instances on the simulated keypad *)

(** A press edge: the idle keypad scanned with the switch at row 1,
    column 2 closed. *)
Lemma scan_latches_on_edge_witness :
  exists k' : MatrixKeypad_t,
    MatrixKeypad_scan (Some (demo_keypad NUL NUL)) (demo_world 0 [(1, 2)]) =
      (Some k', snd (scan_matrix (demo_keypad NUL NUL) (demo_world 0 [(1, 2)]))) /\
    lastKey k' = "6"%char /\ buffer k' = "6"%char.
Proof.
  destruct (scan_latches_on_edge (demo_keypad NUL NUL) (demo_world 0 [(1, 2)]))
    as (k' & Hscan & _ & _ & Hedge).
  exists k'. split; [exact Hscan|].
  destruct Hedge as (Hlast & Hbuf & _); [vm_compute; discriminate|].
  split; [exact Hlast|]. apply Hbuf. vm_compute. discriminate.
Defined.

Lemma getKey_reads_once_witness :
  let pressed :=
    fst (MatrixKeypad_scan (Some (demo_keypad NUL NUL)) (demo_world 0 [(1, 2)])) in
  MatrixKeypad_hasKey pressed = true /\
  fst (MatrixKeypad_getKey pressed) = "6"%char /\
  fst (MatrixKeypad_getKey (snd (MatrixKeypad_getKey pressed))) = NUL.
Proof.
  assert (Hn : fst (scan_matrix (demo_keypad NUL NUL) (demo_world 0 [(1, 2)]))
               <> NUL) by (vm_compute; discriminate).
  assert (He : fst (scan_matrix (demo_keypad NUL NUL) (demo_world 0 [(1, 2)]))
               <> lastKey (demo_keypad NUL NUL)) by (vm_compute; discriminate).
  exact (proj2 (proj2 (getKey_reads_once (demo_keypad NUL NUL)))
           (demo_world 0 [(1, 2)]) Hn He).
Defined.

(** Three switches closed at once, at (0,2), (1,0) and (1,2): the entry of
    row 1, column 2 wins. *)
Lemma scan_last_active_wins_witness :
  let k := demo_keypad NUL NUL in
  let w := demo_world 0 [(0, 2); (1, 0); (1, 2)] in
  fst (scan_matrix k w) = "6"%char /\
  exists r c : nat,
    (r < rown k /\ c < coln k /\ cell_reads k w r c = LOW) /\
    (forall r' c', r < r' < rown k -> c' < coln k -> cell_reads k w r' c' = HIGH) /\
    (forall c', c < c' < coln k -> cell_reads k w r c' = HIGH) /\
    fst (scan_matrix k w) = nth (r * coln k + c) (keyMap k) NUL /\
    exists k' : MatrixKeypad_t,
      fst (MatrixKeypad_scan (Some k) w) = Some k' /\
      lastKey k' = nth (r * coln k + c) (keyMap k) NUL.
Proof.
  intros k w. split; [reflexivity|].
  apply (scan_last_active_wins k w).
  exists 0, 2. split; [cbn; lia|]. split; [cbn; lia | reflexivity].
Defined.

(** A release edge after the event was read: nothing pressed, [lastKey]
    still ["6"], [buffer] empty. *)
Lemma no_phantom_press_witness :
  let after :=
    fst (MatrixKeypad_scan (Some (demo_keypad "6" NUL)) (demo_world 0 [])) in
  MatrixKeypad_hasKey after = false /\ fst (MatrixKeypad_getKey after) = NUL.
Proof.
  apply (no_phantom_press (demo_keypad "6" NUL) (demo_world 0 [])).
  - reflexivity.
  - cbn [rown coln demo_keypad]. intros r c Hr Hc.
    assert (Er : r = 0 \/ r = 1 \/ r = 2 \/ r = 3) by lia.
    assert (Ec : c = 0 \/ c = 1 \/ c = 2) by lia.
    destruct Er as [-> | [-> | [-> | ->]]]; destruct Ec as [-> | [-> | ->]];
      reflexivity.
Defined.

(** Key ["6"] held and buffered, then flushed: scanning with it still held,
    and scanning idle and then with it pressed again. *)
Lemma flush_keeps_history_witness :
  let k0 := set_buffer NUL (demo_keypad "6" "6") in
  let held := demo_world 0 [(1, 2)] in
  let idle := demo_world 20 [] in
  MatrixKeypad_flush (Some (demo_keypad "6" "6")) = Some k0 /\
  MatrixKeypad_hasKey (fst (MatrixKeypad_scan (Some k0) held)) = false /\
  exists k3 : MatrixKeypad_t,
    fst (MatrixKeypad_scan (fst (MatrixKeypad_scan (Some k0) idle)) held) = Some k3 /\
    buffer k3 = "6"%char /\ MatrixKeypad_hasKey (Some k3) = true.
Proof.
  destruct (flush_keeps_history (World := Sim) (demo_keypad "6" "6"))
    as (Hflush & _ & _ & _ & Hscans).
  split; [exact Hflush|].
  apply (Hscans (demo_world 0 [(1, 2)]) (demo_world 20 []) (demo_world 0 [(1, 2)])).
  - vm_compute. discriminate.
  - reflexivity.
  - cbn [rown coln demo_keypad]. intros r c Hr Hc.
    assert (Er : r = 0 \/ r = 1 \/ r = 2 \/ r = 3) by lia.
    assert (Ec : c = 0 \/ c = 1 \/ c = 2) by lia.
    destruct Er as [-> | [-> | [-> | ->]]]; destruct Ec as [-> | [-> | ->]];
      reflexivity.
  - reflexivity.
Defined.

(** An event already pending, and a wait that ends after one scan. *)
Lemma waitForKey_checks_first_witness :
  MatrixKeypad_waitForKey 0 (Some (demo_keypad NUL "5")) (demo_world 0 [(1, 2)]) =
    Some ("5"%char, Some (demo_keypad NUL NUL), demo_world 0 [(1, 2)]) /\
  option_map (fun r => fst (fst r))
    (MatrixKeypad_waitForKey 3 (Some (demo_keypad NUL NUL)) (demo_world 0 [(1, 2)])) =
    Some "6"%char.
Proof.
  split.
  - apply (proj1 (waitForKey_checks_first 0 (demo_keypad NUL "5")
                    (demo_world 0 [(1, 2)]))).
    reflexivity.
  - rewrite (proj2 (proj2 (waitForKey_checks_first 3 (demo_keypad NUL NUL)
                             (demo_world 0 [(1, 2)]))) 1).
    + reflexivity.
    + intros i Hi. assert (E : i = 0) by lia. rewrite E. reflexivity.
    + reflexivity.
    + lia.
Defined.

(** C9 as stated fails.  With ["5"] pending and the switch of ["6"] closed,
    [MatrixKeypad_waitForKey] returns ["5"] and makes no GPIO call, so it
    performs no scan before it looks at the buffer; the scan-then-check loop
    of the specification scans first, latches the new press and returns
    ["6"]. *)
Lemma waitForKey_scans_first_counterexample :
  let keypad := Some (demo_keypad NUL "5") in
  let w := demo_world 0 [(1, 2)] in
  option_map (fun r => (fst (fst r), sim_log (snd r)))
    (MatrixKeypad_waitForKey 5 keypad w) = Some ("5"%char, []) /\
  option_map (fun r => fst (fst r))
    (blockingWaitForKey_spec 5 keypad w) = Some "6"%char /\
  MatrixKeypad_waitForKey 5 keypad w <> blockingWaitForKey_spec 5 keypad w.
Proof.
  split; [reflexivity|]. split; [reflexivity|].
  vm_compute. discriminate.
Qed.

(** Creation with and without storage. *)
Lemma create_result_witness :
  let full :=
    {| sim_clock := 0; sim_heap := false; sim_low := []; sim_closed := [];
       sim_log := [] |} in
  MatrixKeypad_create demo_keymap demo_rowPins demo_colPins 4 3 full =
    (None, full) /\
  fst (MatrixKeypad_create demo_keymap demo_rowPins demo_colPins 4 3
         (demo_world 0 [])) = Some (demo_keypad NUL NUL).
Proof.
  intros full. split.
  - exact (proj1 (create_result demo_keymap demo_rowPins demo_colPins 4 3 full)
             eq_refl).
  - exact (proj1 (proj2 (create_result demo_keymap demo_rowPins demo_colPins 4 3
                           (demo_world 0 [])) eq_refl)).
Defined.

Lemma slots_hold_mapped_keys_witness :
  handle_ok
    (fst (MatrixKeypad_create demo_keymap demo_rowPins demo_colPins 4 3
            (demo_world 0 []))) /\
  handle_ok
    (fst (MatrixKeypad_scan (Some (demo_keypad NUL "5")) (demo_world 0 [(1, 2)]))) /\
  (forall r,
     MatrixKeypad_waitForKey 3 (Some (demo_keypad NUL "5")) (demo_world 0 []) = Some r ->
     handle_ok (snd (fst r))).
Proof.
  assert (H : handle_ok (Some (demo_keypad NUL "5"))).
  { cbn. unfold keypad_ok, slot_ok. cbn. split; [lia|]. split; [now left|].
    right. do 4 right. now left. }
  destruct (slots_hold_mapped_keys (World := Sim)) as (Hcreate & Hops).
  split; [apply Hcreate; cbn; lia|].
  destruct (Hops (Some (demo_keypad NUL "5")) H)
    as (Hscan & _ & _ & _ & _ & Hwait & _).
  split; [apply Hscan | apply Hwait].
Defined.

(** * Further properties *)

(** ** Sequences of scans and reads *)

Section Sequences.

Context {World : Type} {P : Platform World}.

(** X1.  A second scan that finds what the first one found changes nothing, and
    a key that stays down is not delivered again once it has been read
    (lines 96-101 and 127-128). *)
Theorem scan_hold_is_idempotent (k : MatrixKeypad_t) (w1 w2 : World) :
  fst (scan_matrix k w2) = fst (scan_matrix k w1) ->
  let once := fst (MatrixKeypad_scan (Some k) w1) in
  fst (MatrixKeypad_scan once w2) = once /\
  MatrixKeypad_hasKey
    (fst (MatrixKeypad_scan (snd (MatrixKeypad_getKey once)) w2)) = false.
Proof.
  intros Hsame once. subst once.
  rewrite scan_some. cbn [fst MatrixKeypad_getKey snd].
  set (c := fst (scan_matrix k w1)) in *.
  assert (T1 : same_tables k (latch k c)) by apply latch_tables.
  assert (T2 : same_tables k (set_buffer NUL (latch k c))).
  { destruct T1 as (? & ? & ? & ? & ?). unfold same_tables. cbn. auto. }
  split.
  - rewrite scan_some. cbn [fst].
    rewrite (scan_matrix_tables k _ w2 T1), Hsame.
    rewrite latch_held; [reflexivity|]. now rewrite latch_lastKey.
  - rewrite scan_some. cbn [fst].
    rewrite (scan_matrix_tables k _ w2 T2), Hsame.
    rewrite latch_held by (cbn; now rewrite latch_lastKey).
    rewrite hasKey_buffer. reflexivity.
Qed.

(** X2.  A scan never erases an unread event: with one pending, one is pending
    after the scan, and when every cell read idle it is the same one
    (line 98). *)
Theorem scan_keeps_unread_event (k : MatrixKeypad_t) (w : World) :
  MatrixKeypad_hasKey (Some k) = true ->
  MatrixKeypad_hasKey (fst (MatrixKeypad_scan (Some k) w)) = true /\
  ((forall r c, r < rown k -> c < coln k -> cell_reads k w r c = HIGH) ->
   fst (MatrixKeypad_getKey (fst (MatrixKeypad_scan (Some k) w))) = buffer k).
Proof.
  intros Hp. rewrite hasKey_buffer in Hp.
  rewrite scan_some. cbn [fst MatrixKeypad_getKey]. split.
  - rewrite hasKey_buffer.
    destruct (latch_buffer k (fst (scan_matrix k w))) as [-> | [-> Hn]];
      [exact Hp|].
    destruct (Ascii.eqb_spec (fst (scan_matrix k w)) NUL); [contradiction|].
    reflexivity.
  - intros Hidle.
    rewrite scan_matrix_key, (last_cell_idle k w Hidle).
    destruct (latch_buffer k NUL) as [H | [_ H]]; [exact H | contradiction].
Qed.

(** X3.  Only the last press is kept: a scan that finds a key, different from
    what the scan before found, replaces whatever was pending, and the
    earlier event is not delivered (lines 96-100). *)
Theorem second_press_replaces_first (k : MatrixKeypad_t) (w1 w2 : World) :
  fst (scan_matrix k w2) <> NUL ->
  fst (scan_matrix k w2) <> fst (scan_matrix k w1) ->
  let after :=
    fst (MatrixKeypad_scan (fst (MatrixKeypad_scan (Some k) w1)) w2) in
  fst (MatrixKeypad_getKey after) = fst (scan_matrix k w2) /\
  fst (MatrixKeypad_getKey (snd (MatrixKeypad_getKey after))) = NUL.
Proof.
  intros Hn Hd after. subst after.
  rewrite scan_some. cbn [fst]. rewrite scan_some. cbn [fst].
  rewrite (scan_matrix_tables k _ w2 (latch_tables k _)).
  rewrite latch_press; [split; reflexivity | | exact Hn].
  rewrite latch_lastKey. exact Hd.
Qed.

(** X4.  [MatrixKeypad_hasKey] tells what [MatrixKeypad_getKey] would return;
    [MatrixKeypad_getKey] leaves the object as [MatrixKeypad_flush] does,
    and after either nothing is pending.  This holds for NULL too. *)
Theorem hasKey_tells_getKey (keypad : option MatrixKeypad_t) :
  (MatrixKeypad_hasKey keypad = true <->
   fst (MatrixKeypad_getKey keypad) <> NUL) /\
  snd (MatrixKeypad_getKey keypad) = MatrixKeypad_flush keypad /\
  MatrixKeypad_hasKey (MatrixKeypad_flush keypad) = false.
Proof.
  destruct keypad as [k|].
  - rewrite hasKey_buffer. cbn [MatrixKeypad_getKey MatrixKeypad_flush fst snd].
    split; [|split; [reflexivity | now rewrite hasKey_buffer]].
    destruct (Ascii.eqb_spec (buffer k) NUL) as [E|E]; cbn [negb]; split;
      congruence.
  - cbn. split; [split; congruence | split; reflexivity].
Qed.

End Sequences.

(** ** What the blocking waits return *)

Lemma getKey_of_pending (keypad : option MatrixKeypad_t) :
  (MatrixKeypad_hasKey keypad = true ->
   fst (MatrixKeypad_getKey keypad) <> NUL) /\
  MatrixKeypad_hasKey (snd (MatrixKeypad_getKey keypad)) = false.
Proof.
  destruct keypad as [k|]; [|split; [discriminate | reflexivity]].
  rewrite !hasKey_buffer. cbn [MatrixKeypad_getKey fst snd set_buffer buffer].
  split; [|reflexivity].
  destruct (Ascii.eqb_spec (buffer k) NUL); [discriminate | auto].
Qed.

Section Waits.

Context {World : Type} {P : Platform World}.

(** A loop that stopped did so after some number of scans within the fuel,
    at the first state with an event pending. *)
Lemma waitForKey_loop_stopped (fuel : nat) :
  forall (keypad : option MatrixKeypad_t) (w : World)
         (r : option MatrixKeypad_t * World),
    waitForKey_loop fuel keypad w = Some r ->
    exists n : nat,
      n <= fuel /\
      (forall i, i < n ->
         MatrixKeypad_hasKey (fst (scan_times i keypad w)) = false) /\
      MatrixKeypad_hasKey (fst (scan_times n keypad w)) = true /\
      r = scan_times n keypad w.
Proof.
  induction fuel as [|fuel IH]; intros keypad w r;
    destruct (MatrixKeypad_hasKey keypad) eqn:E.
  - rewrite waitForKey_loop_pending by exact E. intros [= <-].
    exists 0. split; [lia|]. split; [intros; lia|]. split; [exact E | reflexivity].
  - cbn [waitForKey_loop]. rewrite E. discriminate.
  - rewrite waitForKey_loop_pending by exact E. intros [= <-].
    exists 0. split; [lia|]. split; [intros; lia|]. split; [exact E | reflexivity].
  - rewrite waitForKey_loop_step by exact E.
    destruct (MatrixKeypad_scan keypad w) as [keypad' w'] eqn:Es.
    cbn [fst snd]. intros H.
    destruct (IH keypad' w' r H) as (n & Hn & Hbefore & Hat & Hr).
    exists (S n). cbn [scan_times]. rewrite Es.
    split; [lia|]. split; [|split; [exact Hat | exact Hr]].
    intros [|i] Hi; [exact E|].
    cbn [scan_times]. rewrite Es. apply Hbefore. lia.
Qed.

(** X5.  When [MatrixKeypad_waitForKey] returns for a non-NULL handle, the key
    is not the sentinel, nothing is pending afterwards, and the result is
    what [MatrixKeypad_getKey] gives in the state after [n] scans, [n] being
    the first number of scans after which an event is pending (lines
    145-148). *)
Theorem waitForKey_returns_a_key (fuel : nat) (k : MatrixKeypad_t) (w w' : World)
    (key : ascii) (keypad' : option MatrixKeypad_t) :
  MatrixKeypad_waitForKey fuel (Some k) w = Some (key, keypad', w') ->
  key <> NUL /\
  MatrixKeypad_hasKey keypad' = false /\
  exists n : nat,
    n <= fuel /\
    (forall i, i < n ->
       MatrixKeypad_hasKey (fst (scan_times i (Some k) w)) = false) /\
    MatrixKeypad_hasKey (fst (scan_times n (Some k) w)) = true /\
    (key, keypad') = MatrixKeypad_getKey (fst (scan_times n (Some k) w)) /\
    w' = snd (scan_times n (Some k) w).
Proof.
  unfold MatrixKeypad_waitForKey.
  destruct (waitForKey_loop fuel (Some k) w) as [[kp1 w1]|] eqn:E;
    [|discriminate].
  destruct (waitForKey_loop_stopped fuel _ _ _ E) as (n & Hn & Hbefore & Hat & Hr).
  destruct (MatrixKeypad_getKey kp1) as [key1 kp2] eqn:Eg.
  intros [= <- <- <-].
  destruct (getKey_of_pending kp1) as (Hkey & Hflush).
  rewrite Eg in Hkey, Hflush. cbn [fst snd] in Hkey, Hflush.
  assert (Hat1 : MatrixKeypad_hasKey kp1 = true)
    by (rewrite <- Hr in Hat; exact Hat).
  split; [now apply Hkey|]. split; [exact Hflush|].
  exists n. rewrite <- Hr. cbn [fst snd]. rewrite Eg.
  repeat split; assumption.
Qed.

(** X6.  Without a new edge the wait does not end: when nothing is pending and
    every scan finds what [lastKey] already holds (no key at all, or a key
    that was down before the call), [MatrixKeypad_waitForKey] runs out of
    any fuel (lines 96 and 145). *)
Theorem waitForKey_needs_an_edge (k : MatrixKeypad_t) (w : World) :
  buffer k = NUL ->
  (forall n, fst (scan_matrix k (snd (scan_times n (Some k) w))) = lastKey k) ->
  forall fuel, MatrixKeypad_waitForKey fuel (Some k) w = None.
Proof.
  intros Hb Hheld fuel. unfold MatrixKeypad_waitForKey.
  assert (E : waitForKey_loop fuel (Some k) w = None); [|now rewrite E].
  revert w Hheld. induction fuel as [|fuel IH]; intros w Hheld.
  - cbn [waitForKey_loop]. rewrite hasKey_buffer, Hb. reflexivity.
  - rewrite waitForKey_loop_step by (rewrite hasKey_buffer, Hb; reflexivity).
    rewrite scan_some. cbn [fst snd].
    rewrite latch_held by exact (Hheld 0).
    apply IH. intros n. pose proof (Hheld 0) as H0. specialize (Hheld (S n)).
    cbn [scan_times] in Hheld, H0. rewrite scan_some in Hheld.
    rewrite latch_held in Hheld by exact H0.
    exact Hheld.
Qed.

End Waits.

(** ** What the wait with a timeout returns *)

Section TimedWait.

Context {World : Type} {P : Platform World}.

(** The loop stops with an event pending, or right after a clock reading
    for which the test [millis() - startTime <= timeout] failed. *)
Lemma waitForKeyTimeout_loop_stopped (startTime timeout : Z) (fuel : nat) :
  forall (keypad keypad' : option MatrixKeypad_t) (w w' : World),
    waitForKeyTimeout_loop fuel startTime timeout keypad w = Some (keypad', w') ->
    MatrixKeypad_hasKey keypad' = true \/
    (MatrixKeypad_hasKey keypad' = false /\
     exists (wp : World) (now : Z),
       millis wp = (now, w') /\ (timeout < ulong_sub now startTime)%Z).
Proof.
  induction fuel as [|fuel IH]; intros keypad keypad' w w';
    cbn [waitForKeyTimeout_loop];
    destruct (MatrixKeypad_hasKey keypad) eqn:E; cbn [negb];
    try (intros [= <- <-]; now left);
    destruct (millis w) as [now w1] eqn:Em;
    destruct (Z.leb_spec (ulong_sub now startTime) timeout) as [Hle|Hgt];
    try discriminate;
    try (intros [= <- <-]; right; split; [exact E|]; exists w, now;
         split; [exact Em | exact Hgt]).
  destruct (MatrixKeypad_scan keypad w1) as [k2 w2]. apply IH.
Qed.

(** X7.  [MatrixKeypad_waitForKeyTimeout] returns a pending event at once,
    after the one clock reading of line 156 and whatever the timeout; and
    whenever it returns, nothing is pending afterwards and the sentinel is
    returned only right after a clock reading at which the difference to
    [startTime] exceeded the timeout (lines 156-166). *)
Theorem waitForKeyTimeout_sentinel_means_timeout (fuel : nat)
    (k : MatrixKeypad_t) (timeout : Z) (w : World) :
  (MatrixKeypad_hasKey (Some k) = true ->
   MatrixKeypad_waitForKeyTimeout fuel (Some k) timeout w =
   Some (buffer k, Some (set_buffer NUL k), snd (millis w))) /\
  (forall (key : ascii) (keypad' : option MatrixKeypad_t) (w' : World),
     MatrixKeypad_waitForKeyTimeout fuel (Some k) timeout w =
     Some (key, keypad', w') ->
     MatrixKeypad_hasKey keypad' = false /\
     (key = NUL ->
      exists (wp : World) (now : Z),
        millis wp = (now, w') /\
        (timeout < ulong_sub now (to_uint16 (fst (millis w))))%Z)).
Proof.
  unfold MatrixKeypad_waitForKeyTimeout.
  destruct (millis w) as [m0 w0]. cbn [fst snd]. split.
  - intros Hp.
    assert (E : waitForKeyTimeout_loop fuel (to_uint16 m0) timeout (Some k) w0 =
                Some (Some k, w0))
      by (destruct fuel; cbn [waitForKeyTimeout_loop]; now rewrite Hp).
    rewrite E. reflexivity.
  - intros key keypad' w'.
    destruct (waitForKeyTimeout_loop fuel (to_uint16 m0) timeout (Some k) w0)
      as [[kp1 w1]|] eqn:E; [|discriminate].
    destruct (getKey_of_pending kp1) as (Hkey & Hflush).
    destruct (MatrixKeypad_getKey kp1) as [key1 kp2].
    cbn [fst snd] in Hkey, Hflush. intros [= <- <- <-].
    split; [exact Hflush|]. intros Hnul.
    destruct (waitForKeyTimeout_loop_stopped _ _ _ _ _ _ _ E)
      as [Hp | (_ & Hout)]; [|exact Hout].
    elim (Hkey Hp Hnul).
Qed.

(** X8.  When the clock read on entry is below 65536, a timeout is never
    reported early: the sentinel is returned only right after a clock
    reading [now] with [now - start > timeout], provided the counter has not
    wrapped since the call (lines 156 and 163). *)
Theorem waitForKeyTimeout_not_early (fuel : nat) (k : MatrixKeypad_t)
    (timeout : Z) (w w' : World) (keypad' : option MatrixKeypad_t) :
  (0 <= fst (millis w) < 65536)%Z ->
  MatrixKeypad_waitForKeyTimeout fuel (Some k) timeout w =
    Some (NUL, keypad', w') ->
  exists (wp : World) (now : Z),
    millis wp = (now, w') /\
    ((fst (millis w) <= now < 2 ^ ulong_bits)%Z ->
     (timeout < now - fst (millis w))%Z).
Proof.
  unfold MatrixKeypad_waitForKeyTimeout.
  destruct (millis w) as [m0 w0]. cbn [fst]. intros Hm0.
  destruct (waitForKeyTimeout_loop fuel (to_uint16 m0) timeout (Some k) w0)
    as [[kp1 w1]|] eqn:E; [|discriminate].
  destruct (getKey_of_pending kp1) as (Hkey & _).
  destruct (MatrixKeypad_getKey kp1) as [key1 kp2]. cbn [fst] in Hkey.
  intros [= -> <- <-].
  destruct (waitForKeyTimeout_loop_stopped _ _ _ _ _ _ _ E)
    as [Hp | (_ & wp & now & Hm & Hout)]; [elim (Hkey Hp eq_refl)|].
  exists wp, now. split; [exact Hm|]. intros Hnow.
  now rewrite ulong_sub_exact in Hout.
Qed.

End TimedWait.

(** ** Grids without rows or without columns *)

Section EmptyGrid.

Context {World : Type} {P : Platform World}.

Lemma waitForKey_loop_idle (fuel : nat) :
  forall (k : MatrixKeypad_t) (w : World),
    (forall w', fst (scan_matrix k w') = NUL) ->
    buffer k = NUL ->
    waitForKey_loop fuel (Some k) w = None.
Proof.
  induction fuel as [|fuel IH]; intros k w Hidle Hb.
  - cbn [waitForKey_loop]. rewrite hasKey_buffer, Hb. reflexivity.
  - rewrite waitForKey_loop_step by (rewrite hasKey_buffer, Hb; reflexivity).
    rewrite scan_some. cbn [fst snd]. rewrite Hidle. apply IH.
    + intros w'. rewrite (scan_matrix_tables k _ w' (latch_tables k NUL)).
      apply Hidle.
    + destruct (latch_buffer k NUL) as [-> | [_ H]]; [exact Hb | contradiction].
Qed.

(** X10.  With [rown] or [coln] zero, which the header forbids but the code does
    not check, no scan ever finds a key: the candidate is the sentinel in
    every world, [buffer] is left as it was, and [MatrixKeypad_waitForKey]
    with nothing pending never returns (lines 85-94 and 145). *)
Theorem empty_grid_detects_nothing (k : MatrixKeypad_t) :
  rown k = 0 \/ coln k = 0 ->
  (forall w : World,
     fst (scan_matrix k w) = NUL /\
     exists k' : MatrixKeypad_t,
       fst (MatrixKeypad_scan (Some k) w) = Some k' /\
       lastKey k' = NUL /\ buffer k' = buffer k) /\
  (buffer k = NUL ->
   forall (fuel : nat) (w : World), MatrixKeypad_waitForKey fuel (Some k) w = None).
Proof.
  intros Hz.
  assert (Hidle : forall w : World, fst (scan_matrix k w) = NUL).
  { intros w. rewrite scan_matrix_key, last_cell_idle; [reflexivity|].
    intros r c Hr Hc. lia. }
  split.
  - intros w. split; [apply Hidle|].
    exists (latch k NUL). rewrite scan_some, Hidle. cbn [fst].
    split; [reflexivity|]. split; [apply latch_lastKey|].
    destruct (latch_buffer k NUL) as [H | [_ H]]; [exact H | contradiction].
  - intros Hb fuel w. unfold MatrixKeypad_waitForKey.
    now rewrite waitForKey_loop_idle.
Qed.

End EmptyGrid.

(** ** The scan on the hardware it was written for *)

Lemma pin_mem_cons (q p : pin) (l : list pin) :
  pin_mem q (p :: l) = Z.eqb q p || pin_mem q l.
Proof. reflexivity. Qed.

Lemma pin_mem_app (q : pin) (l1 l2 : list pin) :
  pin_mem q (l1 ++ l2) = pin_mem q l1 || pin_mem q l2.
Proof. apply existsb_app. Qed.

Lemma pin_mem_rows (k : MatrixKeypad_t) (n r : nat) :
  r < n -> pin_mem (row_pin k r) (map (row_pin k) (seq 0 n)) = true.
Proof.
  intros Hr. apply existsb_exists. exists (row_pin k r).
  split; [|apply Z.eqb_refl].
  apply in_map, in_seq. lia.
Qed.

Lemma existsb_ext_in_pins (f g : pin * pin -> bool) (l : list (pin * pin)) :
  (forall sw, f sw = g sw) -> existsb f l = existsb g l.
Proof.
  intros H. induction l as [|sw l IH]; cbn; [reflexivity|].
  now rewrite H, IH.
Qed.

Section Hardware.

Context {World : Type} {P : Platform World}.

Variable driven_low : World -> pin -> bool.
Variable closed : World -> list (pin * pin).

(** Reading the columns changes no output and moves no switch. *)
Lemma scan_cols_outputs (k : MatrixKeypad_t) (row : nat) (cols : list nat) :
  output_laws driven_low ->
  forall (key : ascii) (w : World) (q : pin),
    driven_low (snd (fold_left (scan_col k row) cols (key, w))) q =
    driven_low w q.
Proof.
  intros (_ & Hread & _).
  induction cols as [|c cols IH]; intros key w q; cbn [fold_left]; [reflexivity|].
  unfold scan_col at 2. specialize (Hread (nth c (colPins k) 0%Z) w).
  destruct (digitalRead (nth c (colPins k) 0%Z) w) as [[|] w'];
    cbn [snd] in Hread; rewrite IH; apply Hread.
Qed.

Lemma scan_cols_switches (k : MatrixKeypad_t) (row : nat) (cols : list nat) :
  switch_laws driven_low closed ->
  forall (key : ascii) (w : World),
    closed (snd (fold_left (scan_col k row) cols (key, w))) = closed w.
Proof.
  intros (_ & Hread & _).
  induction cols as [|c cols IH]; intros key w; cbn [fold_left]; [reflexivity|].
  unfold scan_col at 2. specialize (Hread (nth c (colPins k) 0%Z) w).
  destruct (digitalRead (nth c (colPins k) 0%Z) w) as [[|] w'];
    cbn [snd] in Hread; rewrite IH; apply Hread.
Qed.

(** One row of the sweep leaves its row pin high and the other outputs as
    they were. *)
Lemma scan_row_outputs (k : MatrixKeypad_t) (row : nat) (key : ascii)
    (w : World) (q : pin) :
  output_laws driven_low ->
  driven_low (snd (scan_row k (key, w) row)) q =
  if Z.eqb q (row_pin k row) then false else driven_low w q.
Proof.
  intros Hlaws. pose proof Hlaws as (Hwrite & _ & _).
  unfold scan_row, row_pin.
  pose proof (scan_cols_outputs k row (seq 0 (coln k)) Hlaws key
                (digitalWrite (nth row (rowPins k) 0%Z) LOW w) q) as Hc.
  destruct (fold_left _ _ (key, _)) as [key' w2]. cbn [snd] in *.
  rewrite Hwrite. destruct (Z.eqb q (nth row (rowPins k) 0%Z)) eqn:E;
    [reflexivity|].
  rewrite Hc, Hwrite, E. reflexivity.
Qed.

Lemma scan_row_switches (k : MatrixKeypad_t) (row : nat) (key : ascii)
    (w : World) :
  switch_laws driven_low closed ->
  closed (snd (scan_row k (key, w) row)) = closed w.
Proof.
  intros Hlaws. pose proof Hlaws as (Hwrite & _ & _).
  unfold scan_row.
  pose proof (scan_cols_switches k row (seq 0 (coln k)) Hlaws key
                (digitalWrite (nth row (rowPins k) 0%Z) LOW w)) as Hc.
  destruct (fold_left _ _ (key, _)) as [key' w2]. cbn [snd] in *.
  now rewrite Hwrite, Hc, Hwrite.
Qed.

Lemma scan_rows_outputs (k : MatrixKeypad_t) (rows : list nat) :
  output_laws driven_low ->
  forall (key : ascii) (w : World) (q : pin),
    driven_low (snd (fold_left (scan_row k) rows (key, w))) q =
    if pin_mem q (map (row_pin k) rows) then false else driven_low w q.
Proof.
  intros Hlaws.
  induction rows as [|r rows IH]; intros key w q; cbn [fold_left map];
    [reflexivity|].
  pose proof (scan_row_outputs k r key w q Hlaws) as Hr.
  destruct (scan_row k (key, w) r) as [key' w']. cbn [snd] in Hr.
  rewrite IH, Hr, pin_mem_cons.
  destruct (pin_mem q (map (row_pin k) rows)), (Z.eqb q (row_pin k r));
    reflexivity.
Qed.

Lemma scan_rows_switches (k : MatrixKeypad_t) (rows : list nat) :
  switch_laws driven_low closed ->
  forall (key : ascii) (w : World),
    closed (snd (fold_left (scan_row k) rows (key, w))) = closed w.
Proof.
  intros Hlaws.
  induction rows as [|r rows IH]; intros key w; cbn [fold_left]; [reflexivity|].
  pose proof (scan_row_switches k r key w Hlaws) as Hr.
  destruct (scan_row k (key, w) r) as [key' w']. cbn [snd] in Hr.
  now rewrite IH.
Qed.

(** X11.  After [MatrixKeypad_scan] every row pin is high again and every other
    output is as it was before the call (lines 87 and 93). *)
Theorem scan_restores_rows (k : MatrixKeypad_t) (w : World) (q : pin) :
  output_laws driven_low ->
  driven_low (snd (MatrixKeypad_scan (Some k) w)) q =
  if pin_mem q (map (row_pin k) (seq 0 (rown k))) then false
  else driven_low w q.
Proof.
  intros Hlaws. rewrite scan_some. cbn [snd].
  apply scan_rows_outputs, Hlaws.
Qed.

(** What a cell of the sweep reads, from the switches and the outputs at
    the start of the sweep. *)
Lemma cell_reads_switches (k : MatrixKeypad_t) (w : World) (r c : nat) :
  output_laws driven_low -> switch_laws driven_low closed ->
  cell_reads k w r c =
  if existsb
       (fun sw =>
          Z.eqb (snd sw) (col_pin k c) &&
          (Z.eqb (fst sw) (row_pin k r) ||
           negb (pin_mem (fst sw) (map (row_pin k) (seq 0 r))) &&
           driven_low w (fst sw)))
       (closed w)
  then LOW else HIGH.
Proof.
  intros Hout Hsw.
  pose proof Hout as (Hwrite & _ & _). pose proof Hsw as (Hcw & _ & Hlevel).
  unfold cell_reads. rewrite Hlevel. unfold world_at_cell, world_at_row.
  rewrite (scan_cols_switches k r (seq 0 c) Hsw), Hcw,
    (scan_rows_switches k (seq 0 r) Hsw).
  fold (col_pin k c).
  replace (existsb _ (closed w)) with
    (existsb
       (fun sw =>
          Z.eqb (snd sw) (col_pin k c) &&
          (Z.eqb (fst sw) (row_pin k r) ||
           negb (pin_mem (fst sw) (map (row_pin k) (seq 0 r))) &&
           driven_low w (fst sw)))
       (closed w)); [reflexivity|].
  apply existsb_ext_in_pins. intros sw.
  rewrite (scan_cols_outputs k r (seq 0 c) Hout), Hwrite,
    (scan_rows_outputs k (seq 0 r) Hout).
  fold (row_pin k r).
  destruct sw as [a b]. cbn [fst snd].
  destruct (Z.eqb a (row_pin k r)); [reflexivity|].
  destruct (pin_mem a (map (row_pin k) (seq 0 r))); reflexivity.
Qed.

Lemma cell_reads_closed (k : MatrixKeypad_t) (w : World)
    (cells : list (nat * nat)) (r c : nat) :
  output_laws driven_low -> switch_laws driven_low closed ->
  distinct_pins (rowPins k) (rown k) ->
  distinct_pins (colPins k) (coln k) ->
  (forall r', r' < rown k -> driven_low w (row_pin k r') = false) ->
  closed w = map (cell_switch k) cells ->
  (forall rc, In rc cells -> fst rc < rown k /\ snd rc < coln k) ->
  r < rown k -> c < coln k ->
  (cell_reads k w r c = LOW <-> In (r, c) cells).
Proof.
  intros Hout Hsw Hrows Hcols Hidle Hclosed Hgrid Hr Hc.
  rewrite (cell_reads_switches k w r c Hout Hsw), Hclosed.
  match goal with |- (if ?e then _ else _) = _ <-> _ => destruct e eqn:E end.
  - split; [intros _ | reflexivity].
    apply existsb_exists in E. destruct E as (sw & Hin & Hsw').
    apply in_map_iff in Hin. destruct Hin as ([r' c'] & <- & Hin).
    destruct (Hgrid _ Hin) as (Hr' & Hc'). cbn [fst snd cell_switch] in *.
    rewrite (Hidle r' Hr'), andb_false_r, orb_false_r in Hsw'.
    apply andb_prop in Hsw'. destruct Hsw' as (Ec & Er).
    apply Z.eqb_eq in Ec, Er.
    rewrite (Hrows r' r Hr' Hr Er), (Hcols c' c Hc' Hc Ec) in Hin. exact Hin.
  - split; [discriminate|]. intros Hin. exfalso.
    assert (E' : existsb
                   (fun sw =>
                      Z.eqb (snd sw) (col_pin k c) &&
                      (Z.eqb (fst sw) (row_pin k r) ||
                       negb (pin_mem (fst sw) (map (row_pin k) (seq 0 r))) &&
                       driven_low w (fst sw)))
                   (map (cell_switch k) cells) = true).
    { apply existsb_exists. exists (cell_switch k (r, c)).
      split; [now apply in_map|]. cbn [cell_switch fst snd].
      now rewrite !Z.eqb_refl. }
    rewrite E' in E. discriminate.
Qed.

(** X12.  On hardware that obeys the laws, with different pins in each table and
    the rows high on entry, a scan reads a cell low exactly when its switch
    is closed; so it finds nothing when no key is down, and finds the key
    that is down when there is one (of several, the last in sweep order). *)
Theorem scan_detects_closed_switches (k : MatrixKeypad_t) (w : World)
    (cells : list (nat * nat)) :
  output_laws driven_low -> switch_laws driven_low closed ->
  distinct_pins (rowPins k) (rown k) ->
  distinct_pins (colPins k) (coln k) ->
  (forall r, r < rown k -> driven_low w (row_pin k r) = false) ->
  closed w = map (cell_switch k) cells ->
  (forall rc, In rc cells -> fst rc < rown k /\ snd rc < coln k) ->
  (forall r c, r < rown k -> c < coln k ->
     (cell_reads k w r c = LOW <-> In (r, c) cells)) /\
  (cells = [] -> fst (scan_matrix k w) = NUL) /\
  (forall r c,
     In (r, c) cells ->
     (forall r' c', In (r', c') cells -> r' < r \/ (r' = r /\ c' <= c)) ->
     fst (scan_matrix k w) = nth (r * coln k + c) (keyMap k) NUL).
Proof.
  intros Hout Hsw Hrows Hcols Hidle Hclosed Hgrid.
  assert (Hiff : forall r c, r < rown k -> c < coln k ->
                   (cell_reads k w r c = LOW <-> In (r, c) cells))
    by (intros r c; now apply cell_reads_closed).
  assert (Hhigh : forall r c, r < rown k -> c < coln k ->
                    ~ In (r, c) cells -> cell_reads k w r c = HIGH).
  { intros r c Hr Hc Hn. destruct (cell_reads k w r c) eqn:E; [|reflexivity].
    elim Hn. now apply Hiff. }
  split; [exact Hiff|]. split.
  - intros ->. rewrite scan_matrix_key, last_cell_idle; [reflexivity|].
    intros r c Hr Hc. apply Hhigh; auto.
  - intros r c Hin Hmax. destruct (Hgrid _ Hin) as (Hr & Hc).
    cbn [fst snd] in Hr, Hc.
    apply (scan_key_of_last_cell k w r c Hr Hc).
    + now apply Hiff.
    + intros r' c' Hr' Hc'. apply Hhigh; [lia | exact Hc' |].
      intros Hin'. destruct (Hmax r' c' Hin'); lia.
    + intros c' Hc'. apply Hhigh; [exact Hr | lia |].
      intros Hin'. destruct (Hmax r c' Hin'); lia.
Qed.

(** ** The pins after creation *)




End Hardware.

(** ** The simulated keypad obeys the laws *)

Lemma pin_mem_filter (q p : pin) (l : list pin) :
  pin_mem q (filter (fun x => negb (Z.eqb x p)) l) =
  negb (Z.eqb q p) && pin_mem q l.
Proof.
  induction l as [|x l IH]; cbn [filter pin_mem existsb];
    [now rewrite andb_false_r|].
  fold (pin_mem q l).
  destruct (Z.eqb_spec x p) as [Ex|Ex]; cbn [negb].
  - fold (pin_mem q (filter (fun x => negb (Z.eqb x p)) l)). rewrite IH.
    subst x. destruct (Z.eqb q p); reflexivity.
  - cbn [existsb].
    fold (pin_mem q (filter (fun x => negb (Z.eqb x p)) l)). rewrite IH.
    destruct (Z.eqb_spec q x) as [->|Eq]; cbn [orb]; [|reflexivity].
    destruct (Z.eqb_spec x p); [contradiction | reflexivity].
Qed.

Lemma sim_output_laws : output_laws sim_driven_low.
Proof.
  unfold output_laws, sim_driven_low. split; [|split; reflexivity].
  intros p v s q. cbn [digitalWrite Sim_Platform sim_write sim_tick sim_low].
  destruct v; [rewrite pin_mem_cons|]; rewrite pin_mem_filter;
    destruct (Z.eqb q p); reflexivity.
Qed.

Lemma sim_switch_laws : switch_laws sim_driven_low sim_closed.
Proof.
  unfold switch_laws. repeat split; reflexivity.
Qed.

Lemma demo_rows_distinct : distinct_pins demo_rowPins 4.
Proof.
  intros i j Hi Hj H.
  destruct i as [|[|[|[|i]]]]; destruct j as [|[|[|[|j]]]];
    cbn in H; try reflexivity; try discriminate H; lia.
Qed.

Lemma demo_cols_distinct : distinct_pins demo_colPins 3.
Proof.
  intros i j Hi Hj H.
  destruct i as [|[|[|i]]]; destruct j as [|[|[|j]]];
    cbn in H; try reflexivity; try discriminate H; lia.
Qed.


(** Scans of the simulated keypad move no switch. *)
Lemma sim_scan_times_closed (n : nat) :
  forall (keypad : option MatrixKeypad_t) (s : Sim),
    sim_closed (snd (scan_times n keypad s)) = sim_closed s.
Proof.
  induction n as [|n IH]; intros keypad s; [reflexivity|].
  cbn [scan_times].
  destruct (MatrixKeypad_scan keypad s) as [keypad' s'] eqn:E.
  rewrite IH. destruct keypad as [k|].
  - rewrite scan_some in E. injection E as _ <-.
    apply (scan_rows_switches sim_driven_low sim_closed k _ sim_switch_laws).
  - cbn in E. now injection E as _ <-.
Qed.

(** ** Instances of the further properties *)

Lemma scan_hold_is_idempotent_witness :
  let once :=
    fst (MatrixKeypad_scan (Some (demo_keypad NUL NUL)) (demo_world 0 [(1, 2)])) in
  fst (MatrixKeypad_scan once (demo_world 20 [(1, 2)])) = once /\
  MatrixKeypad_hasKey
    (fst (MatrixKeypad_scan (snd (MatrixKeypad_getKey once))
            (demo_world 20 [(1, 2)]))) = false.
Proof.
  apply (scan_hold_is_idempotent (demo_keypad NUL NUL)
           (demo_world 0 [(1, 2)]) (demo_world 20 [(1, 2)])).
  reflexivity.
Defined.

Lemma scan_keeps_unread_event_witness :
  MatrixKeypad_hasKey
    (fst (MatrixKeypad_scan (Some (demo_keypad "5" "5")) (demo_world 0 []))) = true /\
  ((forall r c, r < 4 -> c < 3 ->
      cell_reads (demo_keypad "5" "5") (demo_world 0 []) r c = HIGH) ->
   fst (MatrixKeypad_getKey
          (fst (MatrixKeypad_scan (Some (demo_keypad "5" "5")) (demo_world 0 []))))
   = "5"%char).
Proof.
  apply (scan_keeps_unread_event (demo_keypad "5" "5") (demo_world 0 [])).
  reflexivity.
Defined.

Lemma second_press_replaces_first_witness :
  let after :=
    fst (MatrixKeypad_scan
           (fst (MatrixKeypad_scan (Some (demo_keypad NUL NUL))
                   (demo_world 0 [(1, 1)])))
           (demo_world 20 [(1, 2)])) in
  fst (MatrixKeypad_getKey after) = "6"%char /\
  fst (MatrixKeypad_getKey (snd (MatrixKeypad_getKey after))) = NUL.
Proof.
  assert (Hn : fst (scan_matrix (demo_keypad NUL NUL) (demo_world 20 [(1, 2)]))
               <> NUL) by (vm_compute; discriminate).
  assert (Hd : fst (scan_matrix (demo_keypad NUL NUL) (demo_world 20 [(1, 2)]))
               <> fst (scan_matrix (demo_keypad NUL NUL) (demo_world 0 [(1, 1)])))
    by (vm_compute; discriminate).
  exact (second_press_replaces_first (demo_keypad NUL NUL)
           (demo_world 0 [(1, 1)]) (demo_world 20 [(1, 2)]) Hn Hd).
Defined.

Lemma waitForKey_returns_a_key_witness :
  exists (key : ascii) (keypad' : option MatrixKeypad_t) (s' : Sim),
    MatrixKeypad_waitForKey 3 (Some (demo_keypad NUL NUL))
      (demo_world 0 [(1, 2)]) = Some (key, keypad', s') /\
    key <> NUL /\ MatrixKeypad_hasKey keypad' = false.
Proof.
  assert (E : exists key keypad' s',
             MatrixKeypad_waitForKey 3 (Some (demo_keypad NUL NUL))
               (demo_world 0 [(1, 2)]) = Some (key, keypad', s'))
    by (do 3 eexists; vm_compute; reflexivity).
  destruct E as (key & keypad' & s' & E).
  destruct (waitForKey_returns_a_key _ _ _ _ _ _ E) as (Hk & Hp & _).
  exists key, keypad', s'. auto.
Defined.

(** Nobody touches the keypad: the wait does not end. *)
Lemma waitForKey_needs_an_edge_witness :
  MatrixKeypad_waitForKey 1000 (Some (demo_keypad NUL NUL)) (demo_world 0 []) =
  None.
Proof.
  apply (waitForKey_needs_an_edge (demo_keypad NUL NUL) (demo_world 0 []));
    [reflexivity|].
  intros n. rewrite scan_matrix_key, last_cell_idle; [reflexivity|].
  intros r c _ _.
  rewrite (cell_reads_switches sim_driven_low sim_closed _ _ r c
             sim_output_laws sim_switch_laws).
  now rewrite sim_scan_times_closed.
Defined.

(** A wait of 30 ms entered with the clock at 1000 ms. *)
Lemma waitForKeyTimeout_not_early_witness :
  exists (keypad' : option MatrixKeypad_t) (s' wp : Sim) (now : Z),
    MatrixKeypad_waitForKeyTimeout 10 (Some (demo_keypad NUL NUL)) 30
      (demo_world 1000 []) = Some (NUL, keypad', s') /\
    millis wp = (now, s') /\
    ((1000 <= now < 2 ^ ulong_bits)%Z -> (30 < now - 1000)%Z).
Proof.
  assert (E : exists keypad' s',
             MatrixKeypad_waitForKeyTimeout 10 (Some (demo_keypad NUL NUL)) 30
               (demo_world 1000 []) = Some (NUL, keypad', s'))
    by (do 2 eexists; vm_compute; reflexivity).
  destruct E as (keypad' & s' & E).
  assert (H0 : (0 <= fst (millis (demo_world 1000 [])) < 65536)%Z)
    by (split; [apply Z.leb_le | apply Z.ltb_lt]; vm_compute; reflexivity).
  destruct (waitForKeyTimeout_not_early 10 (demo_keypad NUL NUL) 30
              (demo_world 1000 []) s' keypad' H0 E) as (wp & now & Hm & Ht).
  exists keypad', s', wp, now. split; [exact E|]. split; [exact Hm | exact Ht].
Defined.

(** A keypad object with no rows. *)
Lemma empty_grid_detects_nothing_witness :
  let k := {| rown := 0; coln := 3; rowPins := []; colPins := demo_colPins;
              keyMap := []; lastKey := NUL; buffer := NUL |} in
  (forall s : Sim,
     fst (scan_matrix k s) = NUL /\
     exists k' : MatrixKeypad_t,
       fst (MatrixKeypad_scan (Some k) s) = Some k' /\
       lastKey k' = NUL /\ buffer k' = buffer k) /\
  (buffer k = NUL ->
   forall (fuel : nat) (s : Sim), MatrixKeypad_waitForKey fuel (Some k) s = None).
Proof.
  intros k. apply (empty_grid_detects_nothing k). left. reflexivity.
Defined.

Lemma scan_restores_rows_witness :
  sim_driven_low
    (snd (MatrixKeypad_scan (Some (demo_keypad NUL NUL)) (demo_world 0 [(1, 2)])))
    8%Z = false.
Proof.
  exact (scan_restores_rows sim_driven_low (demo_keypad NUL NUL)
           (demo_world 0 [(1, 2)]) 8%Z sim_output_laws).
Defined.

(** Two keys down, at (1,2) and (3,0): the later one in sweep order, ["*"],
    is found. *)
Lemma scan_detects_closed_switches_witness :
  let k := demo_keypad NUL NUL in
  let cells := [(1, 2); (3, 0)] in
  let s := demo_world 0 cells in
  (forall r c, r < rown k -> c < coln k ->
     (cell_reads k s r c = LOW <-> In (r, c) cells)) /\
  (cells = [] -> fst (scan_matrix k s) = NUL) /\
  (forall r c,
     In (r, c) cells ->
     (forall r' c', In (r', c') cells -> r' < r \/ (r' = r /\ c' <= c)) ->
     fst (scan_matrix k s) = nth (r * coln k + c) (keyMap k) NUL).
Proof.
  intros k cells s.
  apply (scan_detects_closed_switches sim_driven_low sim_closed k s cells
           sim_output_laws sim_switch_laws demo_rows_distinct demo_cols_distinct).
  - intros r Hr. reflexivity.
  - reflexivity.
  - intros rc [<- | [<- | []]]; cbn; lia.
Defined.


(** ** When the wait with a timeout returns *)

Section PureClock.

Context {World : Type} {P : Platform World}.

(** On a platform where reading the clock changes nothing, the loop stops
    after [n] scans when [n] is the first number of scans after which an
    event is pending or the timeout test fails. *)
Lemma waitForKeyTimeout_loop_stops (startTime timeout : Z) (n : nat) :
  (forall w : World, snd (millis w) = w) ->
  forall (fuel : nat) (keypad : option MatrixKeypad_t) (w : World),
    (forall i, i < n ->
       MatrixKeypad_hasKey (fst (scan_times i keypad w)) = false /\
       (ulong_sub (fst (millis (snd (scan_times i keypad w)))) startTime
        <= timeout)%Z) ->
    (MatrixKeypad_hasKey (fst (scan_times n keypad w)) = true \/
     (timeout <
      ulong_sub (fst (millis (snd (scan_times n keypad w)))) startTime)%Z) ->
    n <= fuel ->
    waitForKeyTimeout_loop fuel startTime timeout keypad w =
    Some (scan_times n keypad w).
Proof.
  intros Hpure.
  induction n as [|n IH]; intros fuel keypad w Hbefore Hat Hfuel.
  - cbn [scan_times fst snd] in Hat |- *.
    assert (E : forall f,
               waitForKeyTimeout_loop f startTime timeout keypad w =
               Some (keypad, w)); [|apply E].
    intros f.
    destruct f; cbn [waitForKeyTimeout_loop];
      destruct (MatrixKeypad_hasKey keypad); cbn [negb]; try reflexivity;
      (destruct Hat as [Hat|Hat]; [discriminate|]);
      pose proof (Hpure w) as Hw; destruct (millis w) as [now w1];
      cbn [fst snd] in *; subst w1;
      (destruct (Z.leb_spec (ulong_sub now startTime) timeout); [lia|]);
      reflexivity.
  - destruct fuel as [|fuel]; [lia|].
    destruct (Hbefore 0 ltac:(lia)) as (Hk & Ht). cbn [scan_times fst snd] in Hk, Ht.
    cbn [waitForKeyTimeout_loop]. rewrite Hk. cbn [negb].
    pose proof (Hpure w) as Hw. destruct (millis w) as [now w1].
    cbn [fst snd] in *. subst w1.
    destruct (Z.leb_spec (ulong_sub now startTime) timeout); [|lia].
    cbn [scan_times] in Hat |- *.
    destruct (MatrixKeypad_scan keypad w) as [keypad' w'] eqn:E.
    apply IH; [| exact Hat | lia].
    intros i Hi. specialize (Hbefore (S i) ltac:(lia)).
    cbn [scan_times] in Hbefore. now rewrite E in Hbefore.
Qed.

(** X9.  On a platform where reading the clock changes nothing, and with fuel
    for [n] iterations, [MatrixKeypad_waitForKeyTimeout] returns after
    exactly [n] scans, with what [MatrixKeypad_getKey] gives then, when [n]
    is the first number of scans after which an event is pending or the
    timeout test fails: the key when one was pressed in time, the sentinel
    otherwise (lines 156-166). *)
Theorem waitForKeyTimeout_stops (fuel : nat) (k : MatrixKeypad_t) (timeout : Z)
    (w : World) (n : nat) :
  (forall w' : World, snd (millis w') = w') ->
  (forall i, i < n ->
     MatrixKeypad_hasKey (fst (scan_times i (Some k) w)) = false /\
     (ulong_sub (fst (millis (snd (scan_times i (Some k) w))))
        (to_uint16 (fst (millis w))) <= timeout)%Z) ->
  (MatrixKeypad_hasKey (fst (scan_times n (Some k) w)) = true \/
   (timeout <
    ulong_sub (fst (millis (snd (scan_times n (Some k) w))))
      (to_uint16 (fst (millis w))))%Z) ->
  n <= fuel ->
  MatrixKeypad_waitForKeyTimeout fuel (Some k) timeout w =
  Some (MatrixKeypad_getKey (fst (scan_times n (Some k) w)),
        snd (scan_times n (Some k) w)).
Proof.
  intros Hpure Hbefore Hat Hfuel. unfold MatrixKeypad_waitForKeyTimeout.
  pose proof (Hpure w) as Hw. destruct (millis w) as [m0 w0].
  cbn [fst snd] in *. subst w0.
  rewrite (waitForKeyTimeout_loop_stops (to_uint16 m0) timeout n Hpure)
    by assumption.
  destruct (scan_times n (Some k) w) as [keypad' w']. cbn [fst snd].
  now destruct (MatrixKeypad_getKey keypad').
Qed.

End PureClock.

(** Key ["6"] down with the clock at 1000 ms and a timeout of 100 ms: one
    scan, and the key is returned. *)
Lemma waitForKeyTimeout_stops_witness :
  option_map (fun r => fst (fst r))
    (MatrixKeypad_waitForKeyTimeout 5 (Some (demo_keypad NUL NUL)) 100
       (demo_world 1000 [(1, 2)])) = Some "6"%char.
Proof.
  rewrite (waitForKeyTimeout_stops 5 (demo_keypad NUL NUL) 100
             (demo_world 1000 [(1, 2)]) 1).
  - reflexivity.
  - intros s. reflexivity.
  - intros i Hi. assert (E : i = 0) by lia. rewrite E.
    split; [reflexivity|]. apply Z.leb_le. vm_compute. reflexivity.
  - left. reflexivity.
  - lia.
Defined.
